(** * Indicators and back-test of [script.js]

    A shallow embedding of the computational core of [script.js]
    ([calculateSMA], [calculateEMA], [calculateRSI], [calculateMACD] and
    [runBacktest]) together with the properties of it that the
    specification states.

    Modelling conventions.
    - The program is embedded twice, definition for definition.  In the
      first embedding a JavaScript Number is a [number]: an exact rational,
      [NaN] or one of the two infinities, and arithmetic on finite numbers
      is exact.  It carries the properties of the control flow and of the
      shape of the results: which slots are [null], which trades a run
      emits.  In the second, the module [Binary64], a Number is the
      IEEE-754 double it is in JavaScript, with its rounding, its overflow
      and its signed zero.  It carries the properties of the values the
      program computes; [fval] gives the [number] a double stands for.
    - An array slot holds a [value]: [undefined] (also what a hole or an
      out-of-range read gives), [null] or a Number.
    - An array is a [list value]; a read out of range gives [undefined], a
      write out of range extends the array, as in JavaScript.
    - A [for] loop over an index range is a left fold of the loop body over
      that range, the mutable locals being the folded state. *)

From Stdlib Require Import QArith Qabs Lia Lqa Bool.
From Stdlib Require Floats.PrimFloat Floats.SpecFloat Floats.FloatOps
  Floats.FloatAxioms.
From Stdlib Require Numbers.Cyclic.Int63.Uint63.
From Stdlib Require Qpower.
From stdpp Require Import base list.

Local Open Scope nat_scope.

(** ** Numbers *)

(** A Number in exact arithmetic: a rational, [NaN] or an infinity. *)
Inductive number : Type :=
  | Fin (q : Q)
  | NaN
  | PInf
  | NInf.

Definition Qltb (a b : Q) : bool := negb (Qle_bool b a).

Definition of_nat (n : nat) : number := Fin (inject_Z (Z.of_nat n)).

Definition nneg (a : number) : number :=
  match a with
  | Fin x => Fin (- x)
  | NaN => NaN
  | PInf => NInf
  | NInf => PInf
  end.

Definition nadd (a b : number) : number :=
  match a, b with
  | NaN, _ | _, NaN => NaN
  | Fin x, Fin y => Fin (x + y)
  | PInf, NInf | NInf, PInf => NaN
  | PInf, _ | _, PInf => PInf
  | NInf, _ | _, NInf => NInf
  end.

Definition nsub (a b : number) : number := nadd a (nneg b).

(** The infinity with the sign of [x], [NaN] for zero. *)
Definition inf_signed (x : Q) (pos : number) : number :=
  if Qeq_bool x 0 then NaN else if Qltb 0 x then pos else nneg pos.

Definition nmul (a b : number) : number :=
  match a, b with
  | NaN, _ | _, NaN => NaN
  | Fin x, Fin y => Fin (x * y)
  | Fin x, PInf | PInf, Fin x => inf_signed x PInf
  | Fin x, NInf | NInf, Fin x => inf_signed x NInf
  | PInf, PInf | NInf, NInf => PInf
  | PInf, NInf | NInf, PInf => NInf
  end.

Definition ndiv (a b : number) : number :=
  match a, b with
  | NaN, _ | _, NaN => NaN
  | Fin x, Fin y => if Qeq_bool y 0 then inf_signed x PInf else Fin (x / y)
  | Fin _, _ => Fin 0
  | PInf, Fin y => if Qltb y 0 then NInf else PInf
  | NInf, Fin y => if Qltb y 0 then PInf else NInf
  | _, _ => NaN
  end.

(** [Math.abs]. *)
Definition nabs (a : number) : number :=
  match a with
  | Fin x => Fin (Qabs x)
  | NaN => NaN
  | _ => PInf
  end.

(** [a < b] on Numbers: false as soon as one side is [NaN]. *)
Definition nlt (a b : number) : bool :=
  match a, b with
  | NaN, _ | _, NaN => false
  | Fin x, Fin y => Qltb x y
  | _, NInf | PInf, _ => false
  | _, _ => true
  end.

(** [a <= b]. *)
Definition nle (a b : number) : bool :=
  match a, b with
  | NaN, _ | _, NaN => false
  | Fin x, Fin y => Qle_bool x y
  | NInf, _ | _, PInf => true
  | _, _ => false
  end.

(** [a === b] on Numbers. *)
Definition neqb (a b : number) : bool :=
  match a, b with
  | Fin x, Fin y => Qeq_bool x y
  | PInf, PInf | NInf, NInf => true
  | _, _ => false
  end.

(** Truthiness of a Number, as in [x ? a : b]. *)
Definition ntruthy (a : number) : bool :=
  match a with
  | Fin x => negb (Qeq_bool x 0)
  | NaN => false
  | _ => true
  end.

(** Equality of Numbers as rationals. *)
Definition num_eq (a b : number) : Prop :=
  match a, b with
  | Fin x, Fin y => (x == y)%Q
  | NaN, NaN | PInf, PInf | NInf, NInf => True
  | _, _ => False
  end.


(** ** Values and arrays *)

Inductive value : Type :=
  | VUndefined
  | VNull
  | VNum (n : number).

(** The conversion the arithmetic and relational operators apply. *)
Definition ToNumber (v : value) : number :=
  match v with
  | VUndefined => NaN
  | VNull => Fin 0
  | VNum n => n
  end.

Definition is_null (v : value) : bool :=
  match v with VNull => true | _ => false end.

Definition is_undefined (v : value) : bool :=
  match v with VUndefined => true | _ => false end.

(** The binary operators [+ - * /] and [< <= > >=] on values (no strings
    occur in the program, so [+] is numeric). *)
Definition js_add (a b : value) : number := nadd (ToNumber a) (ToNumber b).
Definition js_sub (a b : value) : number := nsub (ToNumber a) (ToNumber b).
Definition js_mul (a b : value) : number := nmul (ToNumber a) (ToNumber b).
Definition js_lt (a b : value) : bool := nlt (ToNumber a) (ToNumber b).
Definition js_le (a b : value) : bool := nle (ToNumber a) (ToNumber b).
Definition js_gt (a b : value) : bool := nlt (ToNumber b) (ToNumber a).
Definition js_ge (a b : value) : bool := nle (ToNumber b) (ToNumber a).

Abbreviation array := (list value) (only parsing).

(** [a[i]] as an expression. *)
Definition aget (a : array) (i : nat) : value := default VUndefined (a !! i).

(** [a[i] = v]: in range the slot is overwritten, out of range the array
    grows, the slots in between being holes. *)
Definition aset (a : array) (i : nat) (v : value) : array :=
  if i <? length a then <[i := v]> a
  else a ++ replicate (i - length a) VUndefined ++ [v].

(** [Array(n).fill(null)]. *)
Definition filled_null (n : nat) : array := replicate n VNull.

(** The index range of [for (let i = lo; i < hi; i++)]. *)
Definition range (lo hi : nat) : list nat := seq lo (hi - lo).

(** ** Moving averages *)

Record sma_state : Type := SmaState { sma_sum : number; sma_result : array }.

Definition sma_body (values : array) (period : nat) (st : sma_state) (i : nat)
  : sma_state :=
  let sum := nadd (sma_sum st) (ToNumber (aget values i)) in
  let sum := if period <=? i
             then nsub sum (ToNumber (aget values (i - period))) else sum in
  let result := if period - 1 <=? i
                then aset (sma_result st) i (VNum (ndiv sum (of_nat period)))
                else sma_result st in
  SmaState sum result.

Definition calculateSMA (values : array) (period : nat) : array :=
  sma_result
    (foldl (sma_body values period)
           (SmaState (Fin 0) (filled_null (length values)))
           (range 0 (length values))).

Record ema_state : Type := EmaState { ema_prev : value; ema_out : array }.

(** [k = 2 / (period + 1)]. *)
Definition ema_k (period : nat) : number :=
  ndiv (Fin 2) (nadd (of_nat period) (Fin 1)).

(** One update of the running value [prev]. *)
Definition ema_next (k : number) (prev price : value) : value :=
  if is_undefined prev then price
  else VNum (nadd (nmul (ToNumber price) k)
                  (nmul (ToNumber prev) (nsub (Fin 1) k))).

Definition ema_body (values : array) (period : nat) (st : ema_state) (i : nat)
  : ema_state :=
  let price := aget values i in
  let prev := ema_next (ema_k period) (ema_prev st) price in
  let ema := if period - 1 <=? i then aset (ema_out st) i prev
             else ema_out st in
  EmaState prev ema.

Definition calculateEMA (values : array) (period : nat) : array :=
  ema_out
    (foldl (ema_body values period)
           (EmaState VUndefined (filled_null (length values)))
           (range 0 (length values))).

(** ** RSI with Wilder's smoothing *)

(** The seeding loop: the locals [gains] and [losses]. *)
Definition rsi_seed_body (values : array) (st : number * number) (i : nat)
  : number * number :=
  let change := js_sub (aget values i) (aget values (i - 1)) in
  if nle (Fin 0) change then (nadd (fst st) change, snd st)
  else (fst st, nsub (snd st) change).

Definition rsi_seed (values : array) (period : nat) : number * number :=
  foldl (rsi_seed_body values) (Fin 0, Fin 0) (seq 1 period).

(** The value stored from the two averages (the source writes this
    conditional out twice, once after seeding and once in the loop). *)
Definition rsi_of (avgGain avgLoss : number) : number :=
  if neqb avgLoss (Fin 0) then Fin 100
  else
    let rs := ndiv avgGain avgLoss in
    nsub (Fin 100) (ndiv (Fin 100) (nadd (Fin 1) rs)).

Record rsi_state : Type :=
  RsiState { avgGain : number; avgLoss : number; rsi_out : array }.

Definition wilder (avg : number) (period : nat) (x : number) : number :=
  ndiv (nadd (nmul avg (nsub (of_nat period) (Fin 1))) x) (of_nat period).

Definition rsi_body (values : array) (period : nat) (st : rsi_state) (i : nat)
  : rsi_state :=
  let change := js_sub (aget values i) (aget values (i - 1)) in
  let gain := if nlt (Fin 0) change then change else Fin 0 in
  let loss := if nlt change (Fin 0) then nneg change else Fin 0 in
  let avgGain := wilder (avgGain st) period gain in
  let avgLoss := wilder (avgLoss st) period loss in
  RsiState avgGain avgLoss (aset (rsi_out st) i (VNum (rsi_of avgGain avgLoss))).

(** The state when the second loop starts: the seeded averages and the
    array after [rsi[period] = ...]. *)
Definition rsi_init (values : array) (period : nat) : rsi_state :=
  let '(gains, losses) := rsi_seed values period in
  let avgGain := ndiv gains (of_nat period) in
  let avgLoss := ndiv losses (of_nat period) in
  RsiState avgGain avgLoss
    (aset (filled_null (length values)) period (VNum (rsi_of avgGain avgLoss))).

(** The state after the iteration for index [i] ([rsi_init] for
    [i <= period]). *)
Definition rsi_at (values : array) (period : nat) (i : nat) : rsi_state :=
  foldl (rsi_body values period) (rsi_init values period)
        (range (period + 1) (i + 1)).

Definition calculateRSI (values : array) (period : nat) : array :=
  rsi_out
    (foldl (rsi_body values period) (rsi_init values period)
           (range (period + 1) (length values))).

(** ** MACD *)

Definition macd_line (values emaFast emaSlow : array) : array :=
  imap (fun i _ =>
          if is_null (aget emaFast i) || is_null (aget emaSlow i) then VNull
          else VNum (js_sub (aget emaFast i) (aget emaSlow i)))
       values.

Definition null_to_zero (v : value) : value :=
  if is_null v then VNum (Fin 0) else v.

Definition calculateMACD (values : array) (fastPeriod slowPeriod signalPeriod : nat)
  : array * array :=
  let emaFast := calculateEMA values fastPeriod in
  let emaSlow := calculateEMA values slowPeriod in
  let macdLine := macd_line values emaFast emaSlow in
  let signalLine := calculateEMA (null_to_zero <$> macdLine) signalPeriod in
  (macdLine, signalLine).

(** ** The back-test *)

(** A row of the price series: [date] is the time value of the row's
    [Date], [close] its closing price. *)
Record PricePoint : Type := { date : Z; close : number }.

Record Params : Type := {
  maPeriod : nat;
  rsiPeriod : nat;
  rsiOverbought : number;
  macdFast : nat;
  macdSlow : nat;
  macdSignal : nat
}.

(** The object pushed on [trades].  A date is [None] for [null]. *)
Record Trade : Type := {
  entryDate : option Z;
  exitDate : option Z;
  entryPrice : value;
  exitPrice : value;
  pnl : number
}.

(** The indicator arrays the loop reads. *)
Record Indicators : Type := {
  closes : array;
  sma : array;
  rsi : array;
  macdLine : array;
  signalLine : array
}.

Definition indicators (data : list PricePoint) (params : Params) : Indicators :=
  let closes := (fun d => VNum (close d)) <$> data in
  let sma := calculateSMA closes (maPeriod params) in
  let rsi := calculateRSI closes (rsiPeriod params) in
  let '(macdLine, signalLine) :=
    calculateMACD closes (macdFast params) (macdSlow params) (macdSignal params) in
  Build_Indicators closes sma rsi macdLine signalLine.

(** The locals of the trading loop.  [cur_entryIdx] and [spans] are ghost
    state the source does not have: the index at which the open position was
    entered, and for each trade pushed so far the pair of its entry and exit
    index, in the order of [trades]. *)
Record sim_state : Type := {
  trades : list Trade;
  inTrade : bool;
  cur_entryPrice : value;
  cur_entryDate : option Z;
  cur_entryIdx : nat;
  spans : list (nat * nat)
}.

Definition sim_init : sim_state :=
  {| trades := []; inTrade := false; cur_entryPrice := VNum (Fin 0);
     cur_entryDate := None; cur_entryIdx := 0; spans := [] |}.

Definition buySignal (ind : Indicators) (overbought : number) (i : nat) : bool :=
  js_gt (aget (closes ind) i) (aget (sma ind) i)
  && negb (is_null (aget (macdLine ind) (i - 1)))
  && negb (is_null (aget (macdLine ind) i))
  && js_le (aget (macdLine ind) (i - 1)) (aget (signalLine ind) (i - 1))
  && js_gt (aget (macdLine ind) i) (aget (signalLine ind) i)
  && negb (is_null (aget (rsi ind) i))
  && js_lt (aget (rsi ind) i) (VNum overbought).

Definition sellSignal (ind : Indicators) (i : nat) : bool :=
  js_ge (aget (macdLine ind) (i - 1)) (aget (signalLine ind) (i - 1))
  && js_lt (aget (macdLine ind) i) (aget (signalLine ind) i).

Definition sim_body (data : list PricePoint) (params : Params) (ind : Indicators)
    (st : sim_state) (i : nat) : sim_state :=
  if negb (inTrade st) then
    if buySignal ind (rsiOverbought params) i then
      {| trades := trades st; inTrade := true;
         cur_entryPrice := aget (closes ind) i;
         cur_entryDate := date <$> data !! i;
         cur_entryIdx := i; spans := spans st |}
    else st
  else
    if sellSignal ind i || (i =? length data - 1) then
      let exitPrice := aget (closes ind) i in
      let exitDate := date <$> data !! i in
      let pnl := js_sub exitPrice (cur_entryPrice st) in
      {| trades := trades st ++
           [ {| entryDate := cur_entryDate st; exitDate := exitDate;
                entryPrice := cur_entryPrice st; exitPrice := exitPrice;
                pnl := pnl |} ];
         inTrade := false;
         cur_entryPrice := cur_entryPrice st;
         cur_entryDate := cur_entryDate st;
         cur_entryIdx := cur_entryIdx st;
         spans := spans st ++ [(cur_entryIdx st, i)] |}
    else st.

(** The state of the loop when the iteration for index [i] starts. *)
Definition sim_before (data : list PricePoint) (params : Params) (i : nat)
  : sim_state :=
  foldl (sim_body data params (indicators data params)) sim_init (range 1 i).

(** The state when the loop has ended. *)
Definition simulate (data : list PricePoint) (params : Params) : sim_state :=
  sim_before data params (length data).

(** *** Performance metrics *)

Record BacktestResult : Type := {
  res_trades : list Trade;
  winRate : number;
  totalTrades : nat;
  profitFactor : number
}.

Definition is_win (t : Trade) : bool := nlt (Fin 0) (pnl t).
Definition is_loss (t : Trade) : bool := nlt (pnl t) (Fin 0).

Definition grossProfit (ts : list Trade) : number :=
  foldl (fun sum t => nadd sum (pnl t)) (Fin 0) (List.filter is_win ts).

Definition grossLoss (ts : list Trade) : number :=
  foldl (fun sum t => nadd sum (nabs (pnl t))) (Fin 0) (List.filter is_loss ts).

Definition metrics (ts : list Trade) : BacktestResult :=
  let totalTrades := length ts in
  let wins := length (List.filter is_win ts) in
  let winRate := if negb (totalTrades =? 0)
                 then nmul (ndiv (of_nat wins) (of_nat totalTrades)) (Fin 100)
                 else Fin 0 in
  let profitFactor := if ntruthy (grossLoss ts)
                      then ndiv (grossProfit ts) (grossLoss ts) else PInf in
  {| res_trades := ts; winRate := winRate; totalTrades := totalTrades;
     profitFactor := profitFactor |}.

Definition runBacktest (data : list PricePoint) (params : Params) : BacktestResult :=
  metrics (trades (simulate data params)).

(** * Reference definitions, loop states and invariants

    What the properties below are stated with: the references that follow
    the words of the specification, the state of each loop per index, and
    the loop invariants. *)

(** ** Sequences of finite numbers *)

(** The array of the finite numbers [qs]. *)
Definition nums (qs : list Q) : array := (fun q => VNum (Fin q)) <$> qs.

(** ** SMA: the reference mean *)

Definition qsum (l : list Q) : Q := foldr Qplus 0%Q l.

(** [values[i - period + 1 .. i]]. *)
Definition window (qs : list Q) (period i : nat) : list Q :=
  drop (i + 1 - period) (take (i + 1) qs).

(** The reference: the arithmetic mean of the window, recomputed from
    scratch. *)
Definition window_mean (qs : list Q) (period i : nat) : Q :=
  (qsum (window qs period i) / inject_Z (Z.of_nat period))%Q.

(** What the running sum holds when the iteration for [j] starts. *)
Definition trailing (qs : list Q) (period j : nat) : list Q :=
  drop (j - period) (take j qs).

(** ** EMA: the loop state per index *)

(** The locals of [calculateEMA] when the iteration for [j] starts. *)
Definition ema_loop (values : array) (period j : nat) : ema_state :=
  foldl (ema_body values period)
        (EmaState VUndefined (filled_null (length values))) (range 0 j).

(** The running value [prev] after the iteration for [i]. *)
Definition ema_running (values : array) (period i : nat) : value :=
  ema_prev (ema_loop values period (i + 1)).

(** ** RSI: the invariants of the two loops *)



(** ** MACD: the input of the signal EMA *)


(** ** The trading loop: trades against spans *)

(** The trade pushed for a position entered at row [e] and left at row
    [x]: what ties the ghost [spans] to the objects in [trades]. *)
Definition trade_of_span (data : list PricePoint) (ind : Indicators)
    (sp : nat * nat) (t : Trade) : Prop :=
  entryDate t = date <$> data !! fst sp
  /\ exitDate t = date <$> data !! snd sp
  /\ entryPrice t = aget (closes ind) (fst sp)
  /\ exitPrice t = aget (closes ind) (snd sp)
  /\ pnl t = js_sub (aget (closes ind) (snd sp)) (aget (closes ind) (fst sp)).

(** The invariant of the trading loop when the iteration for [i] starts. *)
Record sim_inv (data : list PricePoint) (ind : Indicators) (i : nat)
    (st : sim_state) : Prop := {
  inv_span : forall k e x, spans st !! k = Some (e, x) -> e < x /\ x < i;
  inv_next : forall k e1 x1 e2 x2,
      spans st !! k = Some (e1, x1) -> spans st !! (k + 1) = Some (e2, x2) ->
      x1 < e2;
  inv_open : inTrade st = true ->
      cur_entryIdx st < i
      /\ cur_entryPrice st = aget (closes ind) (cur_entryIdx st)
      /\ cur_entryDate st = date <$> data !! cur_entryIdx st
      /\ forall e x, last (spans st) = Some (e, x) -> x < cur_entryIdx st;
  inv_trades : Forall2 (trade_of_span data ind) (spans st) (trades st)
}.

(** ** Metrics: the reference on rational profits *)

(** The reference, in the words of the specification, on the profits of the
    trades: [count(pnl > 0)], [sum(pnl for pnl > 0)] and
    [sum(|pnl| for pnl < 0)]. *)
Definition wins_ref (ps : list Q) : nat :=
  length (List.filter (fun p => Qltb 0 p) ps).

Definition grossProfit_ref (ps : list Q) : Q :=
  qsum (List.filter (fun p => Qltb 0 p) ps).

Definition grossLoss_ref (ps : list Q) : Q :=
  qsum (List.map Qabs (List.filter (fun p => Qltb p 0) ps)).

(** ** Concrete series and parameters *)

(** A price series from its closes, the row [i] dated [i]. *)
Definition series (qs : list Q) : list PricePoint :=
  imap (fun i q => {| date := Z.of_nat i; close := Fin q |}) qs.

Definition dip_and_recover : list PricePoint := series [10; 9; 11; 8; 8]%Q.

(** An SMA period longer than the other warm-ups. *)
Definition long_ma_params : Params :=
  {| maPeriod := 5; rsiPeriod := 2; rsiOverbought := Fin 70;
     macdFast := 1; macdSlow := 2; macdSignal := 2 |}.

(** A signal period longer than the two MACD EMA periods. *)
Definition long_signal_params : Params :=
  {| maPeriod := 2; rsiPeriod := 2; rsiOverbought := Fin 70;
     macdFast := 1; macdSlow := 2; macdSignal := 5 |}.

Definition example_series : list PricePoint :=
  series [10; 11; 12; 11; 10; 9; 10; 11; 13; 14]%Q.

Definition example_params : Params :=
  {| maPeriod := 3; rsiPeriod := 3; rsiOverbought := Fin 70;
     macdFast := 2; macdSlow := 4; macdSignal := 2 |}.

(** ** Further loop states and predicates *)

(** The locals of [calculateSMA] when the iteration for [j] starts. *)
Definition sma_loop (values : array) (period j : nat) : sma_state :=
  foldl (sma_body values period)
        (SmaState (Fin 0) (filled_null (length values))) (range 0 j).

(** A span whose entry index is one where the buy rule held and whose exit
    index is one where the sell rule held or the last index. *)
Definition span_by_rules (data : list PricePoint) (params : Params)
    (ind : Indicators) (sp : nat * nat) : Prop :=
  1 <= fst sp
  /\ buySignal ind (rsiOverbought params) (fst sp) = true
  /\ (sellSignal ind (snd sp) = true \/ snd sp = length data - 1).

(** A sequence that never falls. *)
Definition nondecreasing (qs : list Q) : Prop :=
  forall i a b, qs !! i = Some a -> qs !! (i + 1) = Some b -> (a <= b)%Q.

(** The rational a slot holds, 0 for a slot that holds none. *)
Definition fin_or_zero (v : value) : Q :=
  match v with VNum (Fin q) => q | _ => 0%Q end.

(** A slot that is [null] or a finite number. *)
Definition null_or_fin (v : value) : Prop :=
  v = VNull \/ exists q, v = VNum (Fin q).


(** The invariant behind [span_by_rules]: the open position, too, was
    entered where the buy rule held. *)
Definition rules_inv (data : list PricePoint) (params : Params)
    (ind : Indicators) (st : sim_state) : Prop :=
  Forall (span_by_rules data params ind) (spans st)
  /\ (inTrade st = true ->
      1 <= cur_entryIdx st
      /\ buySignal ind (rsiOverbought params) (cur_entryIdx st) = true).

(** ** Reading the CSV text: [parseCSV]

    A string is the list of its UTF-16 code units.  The two built-ins whose
    result depends on tables outside the program, [String.prototype
    .toLowerCase] and [parseFloat], are parameters of the model; a [Date]
    is represented by the argument it was constructed from. *)

Abbreviation jsstring := (list N) (only parsing).

Record Builtins : Type := {
  toLowerCase : jsstring -> jsstring;
  parseFloat : jsstring -> number
}.

(** The code units [trim] strips: white space and line terminators. *)
Definition is_whitespace (c : N) : bool :=
  ((c =? 9) || (c =? 10) || (c =? 11) || (c =? 12) || (c =? 13) || (c =? 32)
   || (c =? 160) || (c =? 5760) || ((8192 <=? c) && (c <=? 8202))
   || (c =? 8232) || (c =? 8233) || (c =? 8239) || (c =? 8287)
   || (c =? 12288) || (c =? 65279))%N.

Fixpoint trim_start (s : jsstring) : jsstring :=
  match s with
  | [] => []
  | c :: r => if is_whitespace c then trim_start r else s
  end.

Definition trim (s : jsstring) : jsstring :=
  rev (trim_start (rev (trim_start s))).

(** [s.split(',')], [cur] being the field read so far. *)
Fixpoint split_comma_from (cur s : jsstring) : list jsstring :=
  match s with
  | [] => [cur]
  | c :: r => if (c =? 44)%N then cur :: split_comma_from [] r
              else split_comma_from (cur ++ [c]) r
  end.

Definition split_comma (s : jsstring) : list jsstring := split_comma_from [] s.

(** [s.split(/\r?\n/)]: a line ends at a line feed, a carriage return just
    before it belongs to the separator. *)
Fixpoint split_lines_from (cur s : jsstring) : list jsstring :=
  match s with
  | [] => [cur]
  | c :: r =>
      if (c =? 10)%N then cur :: split_lines_from [] r
      else if (c =? 13)%N then
        match r with
        | d :: r' => if (d =? 10)%N then cur :: split_lines_from [] r'
                     else split_lines_from (cur ++ [c]) r
        | [] => split_lines_from (cur ++ [c]) r
        end
      else split_lines_from (cur ++ [c]) r
  end.

Definition split_lines (s : jsstring) : list jsstring := split_lines_from [] s.

(** The keys ['date'], ['time'], ['timestamp'] and ['__proto__']. *)
Definition key_date : jsstring := [100; 97; 116; 101]%N.
Definition key_time : jsstring := [116; 105; 109; 101]%N.
Definition key_timestamp : jsstring :=
  [116; 105; 109; 101; 115; 116; 97; 109; 112]%N.
Definition key_proto : jsstring := [95; 95; 112; 114; 111; 116; 111; 95; 95]%N.

Definition is_date_key (key : jsstring) : bool :=
  bool_decide (key = key_date) || bool_decide (key = key_time)
  || bool_decide (key = key_timestamp).

(** [new Date(val)] for a string and [new Date(i)] for a number. *)
Inductive jsdate : Type :=
  | DateOfString (s : jsstring)
  | DateOfNumber (n : nat).

(** What a property of a row object holds. *)
Inductive field : Type :=
  | FDate (d : jsdate)
  | FNum (x : number).

(** A row object: its own properties, in the order they were created. *)
Abbreviation rowobj := (list (list N * field)) (only parsing).

(** [obj[key]] as an expression: [None] is [undefined]. *)
Fixpoint obj_get (obj : rowobj) (key : jsstring) : option field :=
  match obj with
  | [] => None
  | (k, f) :: r => if bool_decide (k = key) then Some f else obj_get r key
  end.

(** [obj[key] = f]: an existing property is overwritten in place, a new one
    is added last. *)
Fixpoint obj_set (obj : rowobj) (key : jsstring) (f : field) : rowobj :=
  match obj with
  | [] => [(key, f)]
  | (k, f0) :: r => if bool_decide (k = key) then (k, f) :: r
                    else (k, f0) :: obj_set r key f
  end.

(** The truthiness of [obj.date]: a [Date] object is truthy, a missing
    property is not. *)
Definition field_truthy (f : option field) : bool :=
  match f with
  | Some (FDate _) => true
  | Some (FNum x) => ntruthy x
  | None => false
  end.

(** The body of the inner loop.  [obj['__proto__'] = number] goes to the
    setter inherited from [Object.prototype], which ignores a primitive: no
    property is created. *)
Definition csv_cell (bi : Builtins) (header row : list jsstring)
    (obj : rowobj) (j : nat) : rowobj :=
  let key := default [] (header !! j) in
  let val := trim (default [] (row !! j)) in
  if is_date_key key then obj_set obj key_date (FDate (DateOfString val))
  else if bool_decide (key = key_proto) then obj
  else obj_set obj key (FNum (parseFloat bi val)).

(** The object built from a row of as many fields as the header. *)
Definition csv_object (bi : Builtins) (header row : list jsstring) (i : nat)
  : rowobj :=
  let obj := foldl (csv_cell bi header row) [] (range 0 (length header)) in
  if negb (field_truthy (obj_get obj key_date))
  then obj_set obj key_date (FDate (DateOfNumber i))
  else obj.

(** The body of the outer loop. *)
Definition csv_line (bi : Builtins) (header lines : list jsstring)
    (data : list rowobj) (i : nat) : list rowobj :=
  let row := split_comma (default [] (lines !! i)) in
  if negb (length row =? length header) then data
  else data ++ [csv_object bi header row i].

Definition csv_lines (text : jsstring) : list jsstring := split_lines (trim text).

Definition csv_header (bi : Builtins) (text : jsstring) : list jsstring :=
  (fun h => toLowerCase bi (trim h))
    <$> split_comma (default [] (csv_lines text !! 0)).

Definition parseCSV (bi : Builtins) (text : jsstring) : list rowobj :=
  foldl (csv_line bi (csv_header bi text) (csv_lines text)) []
        (range 1 (length (csv_lines text))).

(** Identity lower-casing and a [parseFloat] that reads nothing: enough to
    run [parseCSV] on a text. *)
Definition plain_builtins : Builtins :=
  {| toLowerCase := fun s => s; parseFloat := fun _ => NaN |}.

(** A line with as many fields as the header has. *)
Definition well_formed (header : list jsstring) (line : jsstring) : bool :=
  length (split_comma line) =? length header.

(** A row object whose [date] property is a [Date]. *)
Definition has_date (obj : rowobj) : Prop :=
  exists d, obj_get obj key_date = Some (FDate d).

(** Whatever is under [date] in the object under construction is a
    [Date]. *)
Definition date_is_Date (obj : rowobj) : Prop :=
  forall f, obj_get obj key_date = Some f -> exists d, f = FDate d.


(** A row object whose [date] is the fallback built from the index of a
    line after the header, among [n] lines. *)
Definition has_fallback_date (n : nat) (obj : rowobj) : Prop :=
  exists i, 1 <= i < n /\ obj_get obj key_date = Some (FDate (DateOfNumber i)).



(** * The same program on doubles

    The embedding above gives a Number exact arithmetic.  [Binary64] is the
    same program, definition for definition, with a Number being the
    IEEE-754 binary64 value it is in JavaScript and [+ - * /], the
    comparisons and [Math.abs] being the primitive operations on doubles:
    rounding, overflow to an infinity, [NaN] and the signed zero are those
    of the code.  A period and a length are natural numbers, compared as
    such where the source compares them with a loop index and converted to
    the double of the same value where the source computes with them (the
    conversion is exact below [2^53], and an array is shorter than
    [2^32]).  The ghost state of the trading loop
    is left out. *)

Module Binary64.

Import PrimFloat.

Inductive value : Type :=
  | VUndefined
  | VNull
  | VNum (x : float).

Definition ToNumber (v : value) : float :=
  match v with
  | VUndefined => nan
  | VNull => 0%float
  | VNum x => x
  end.

Definition is_null (v : value) : bool :=
  match v with VNull => true | _ => false end.

Definition is_undefined (v : value) : bool :=
  match v with VUndefined => true | _ => false end.

(** The double of a length or of a period. *)
Definition of_nat (n : nat) : float :=
  PrimFloat.of_uint63 (Uint63.of_Z (Z.of_nat n)).

(** Truthiness of a Number: neither a zero nor [NaN]. *)
Definition truthy (x : float) : bool :=
  negb (PrimFloat.eqb x 0) && PrimFloat.eqb x x.

Definition js_sub (a b : value) : float := (ToNumber a - ToNumber b)%float.
Definition js_lt (a b : value) : bool := PrimFloat.ltb (ToNumber a) (ToNumber b).
Definition js_le (a b : value) : bool := PrimFloat.leb (ToNumber a) (ToNumber b).
Definition js_gt (a b : value) : bool := PrimFloat.ltb (ToNumber b) (ToNumber a).
Definition js_ge (a b : value) : bool := PrimFloat.leb (ToNumber b) (ToNumber a).

Definition aget (a : list value) (i : nat) : value := default VUndefined (a !! i).

Definition aset (a : list value) (i : nat) (v : value) : list value :=
  if i <? length a then <[i := v]> a
  else a ++ replicate (i - length a) VUndefined ++ [v].

Definition filled_null (n : nat) : list value := replicate n VNull.

(** ** Moving averages *)

Record sma_state : Type := SmaState { sma_sum : float; sma_result : list value }.

Definition sma_body (values : list value) (period : nat) (st : sma_state) (i : nat)
  : sma_state :=
  let sum := (sma_sum st + ToNumber (aget values i))%float in
  let sum := if period <=? i
             then (sum - ToNumber (aget values (i - period)))%float else sum in
  let result := if period - 1 <=? i
                then aset (sma_result st) i (VNum (sum / of_nat period))
                else sma_result st in
  SmaState sum result.

(** The locals of [calculateSMA] when the iteration for [j] starts. *)
Definition sma_loop (values : list value) (period j : nat) : sma_state :=
  foldl (sma_body values period)
        (SmaState 0 (filled_null (length values))) (range 0 j).

Definition calculateSMA (values : list value) (period : nat) : list value :=
  sma_result (sma_loop values period (length values)).

Record ema_state : Type := EmaState { ema_prev : value; ema_out : list value }.

Definition ema_k (period : nat) : float := (2 / (of_nat period + 1))%float.

Definition ema_next (k : float) (prev price : value) : value :=
  if is_undefined prev then price
  else VNum (ToNumber price * k + ToNumber prev * (1 - k)).

Definition ema_body (values : list value) (period : nat) (st : ema_state) (i : nat)
  : ema_state :=
  let price := aget values i in
  let prev := ema_next (ema_k period) (ema_prev st) price in
  let ema := if period - 1 <=? i then aset (ema_out st) i prev
             else ema_out st in
  EmaState prev ema.

Definition calculateEMA (values : list value) (period : nat) : list value :=
  ema_out
    (foldl (ema_body values period)
           (EmaState VUndefined (filled_null (length values)))
           (range 0 (length values))).

(** ** RSI with Wilder's smoothing *)

Definition rsi_seed_body (values : list value) (st : float * float) (i : nat)
  : float * float :=
  let change := js_sub (aget values i) (aget values (i - 1)) in
  if PrimFloat.leb 0 change then ((fst st + change)%float, snd st)
  else (fst st, (snd st - change)%float).

Definition rsi_seed (values : list value) (period : nat) : float * float :=
  foldl (rsi_seed_body values) (0%float, 0%float) (seq 1 period).

Definition rsi_of (avgGain avgLoss : float) : float :=
  if PrimFloat.eqb avgLoss 0 then 100%float
  else
    let rs := (avgGain / avgLoss)%float in
    (100 - 100 / (1 + rs))%float.

Record rsi_state : Type :=
  RsiState { avgGain : float; avgLoss : float; rsi_out : list value }.

Definition wilder (avg : float) (period : nat) (x : float) : float :=
  ((avg * (of_nat period - 1) + x) / of_nat period)%float.

Definition rsi_body (values : list value) (period : nat) (st : rsi_state) (i : nat)
  : rsi_state :=
  let change := js_sub (aget values i) (aget values (i - 1)) in
  let gain := if PrimFloat.ltb 0 change then change else 0%float in
  let loss := if PrimFloat.ltb change 0 then (- change)%float else 0%float in
  let avgGain := wilder (avgGain st) period gain in
  let avgLoss := wilder (avgLoss st) period loss in
  RsiState avgGain avgLoss (aset (rsi_out st) i (VNum (rsi_of avgGain avgLoss))).

Definition rsi_init (values : list value) (period : nat) : rsi_state :=
  let '(gains, losses) := rsi_seed values period in
  let avgGain := (gains / of_nat period)%float in
  let avgLoss := (losses / of_nat period)%float in
  RsiState avgGain avgLoss
    (aset (filled_null (length values)) period (VNum (rsi_of avgGain avgLoss))).

(** The state after the iteration for index [i] ([rsi_init] for
    [i <= period]). *)
Definition rsi_at (values : list value) (period : nat) (i : nat) : rsi_state :=
  foldl (rsi_body values period) (rsi_init values period)
        (range (period + 1) (i + 1)).

Definition calculateRSI (values : list value) (period : nat) : list value :=
  rsi_out
    (foldl (rsi_body values period) (rsi_init values period)
           (range (period + 1) (length values))).

(** ** MACD *)

Definition macd_line (values emaFast emaSlow : list value) : list value :=
  imap (fun i _ =>
          if is_null (aget emaFast i) || is_null (aget emaSlow i) then VNull
          else VNum (js_sub (aget emaFast i) (aget emaSlow i)))
       values.

Definition null_to_zero (v : value) : value :=
  if is_null v then VNum 0 else v.

Definition calculateMACD (values : list value)
    (fastPeriod slowPeriod signalPeriod : nat) : list value * list value :=
  let emaFast := calculateEMA values fastPeriod in
  let emaSlow := calculateEMA values slowPeriod in
  let macdLine := macd_line values emaFast emaSlow in
  let signalLine := calculateEMA (null_to_zero <$> macdLine) signalPeriod in
  (macdLine, signalLine).

(** ** The back-test *)

Record PricePoint : Type := { date : Z; close : float }.

Record Params : Type := {
  maPeriod : nat;
  rsiPeriod : nat;
  rsiOverbought : float;
  macdFast : nat;
  macdSlow : nat;
  macdSignal : nat
}.

Record Trade : Type := {
  entryDate : option Z;
  exitDate : option Z;
  entryPrice : value;
  exitPrice : value;
  pnl : float
}.

Record Indicators : Type := {
  closes : list value;
  sma : list value;
  rsi : list value;
  macdLine : list value;
  signalLine : list value
}.

Definition indicators (data : list PricePoint) (params : Params) : Indicators :=
  let closes := (fun d => VNum (close d)) <$> data in
  let sma := calculateSMA closes (maPeriod params) in
  let rsi := calculateRSI closes (rsiPeriod params) in
  let '(macdLine, signalLine) :=
    calculateMACD closes (macdFast params) (macdSlow params) (macdSignal params) in
  Build_Indicators closes sma rsi macdLine signalLine.

Record sim_state : Type := {
  trades : list Trade;
  inTrade : bool;
  cur_entryPrice : value;
  cur_entryDate : option Z
}.

Definition sim_init : sim_state :=
  {| trades := []; inTrade := false; cur_entryPrice := VNum 0;
     cur_entryDate := None |}.

Definition buySignal (ind : Indicators) (overbought : float) (i : nat) : bool :=
  js_gt (aget (closes ind) i) (aget (sma ind) i)
  && negb (is_null (aget (macdLine ind) (i - 1)))
  && negb (is_null (aget (macdLine ind) i))
  && js_le (aget (macdLine ind) (i - 1)) (aget (signalLine ind) (i - 1))
  && js_gt (aget (macdLine ind) i) (aget (signalLine ind) i)
  && negb (is_null (aget (rsi ind) i))
  && js_lt (aget (rsi ind) i) (VNum overbought).

Definition sellSignal (ind : Indicators) (i : nat) : bool :=
  js_ge (aget (macdLine ind) (i - 1)) (aget (signalLine ind) (i - 1))
  && js_lt (aget (macdLine ind) i) (aget (signalLine ind) i).

Definition sim_body (data : list PricePoint) (params : Params) (ind : Indicators)
    (st : sim_state) (i : nat) : sim_state :=
  if negb (inTrade st) then
    if buySignal ind (rsiOverbought params) i then
      {| trades := trades st; inTrade := true;
         cur_entryPrice := aget (closes ind) i;
         cur_entryDate := date <$> data !! i |}
    else st
  else
    if sellSignal ind i || (i =? length data - 1) then
      let exitPrice := aget (closes ind) i in
      let exitDate := date <$> data !! i in
      let pnl := js_sub exitPrice (cur_entryPrice st) in
      {| trades := trades st ++
           [ {| entryDate := cur_entryDate st; exitDate := exitDate;
                entryPrice := cur_entryPrice st; exitPrice := exitPrice;
                pnl := pnl |} ];
         inTrade := false;
         cur_entryPrice := cur_entryPrice st;
         cur_entryDate := cur_entryDate st |}
    else st.

Definition simulate (data : list PricePoint) (params : Params) : sim_state :=
  foldl (sim_body data params (indicators data params)) sim_init
        (range 1 (length data)).

Record BacktestResult : Type := {
  res_trades : list Trade;
  winRate : float;
  totalTrades : nat;
  profitFactor : float
}.

Definition is_win (t : Trade) : bool := PrimFloat.ltb 0 (pnl t).
Definition is_loss (t : Trade) : bool := PrimFloat.ltb (pnl t) 0.

Definition grossProfit (ts : list Trade) : float :=
  foldl (fun sum t => (sum + pnl t)%float) 0%float (List.filter is_win ts).

Definition grossLoss (ts : list Trade) : float :=
  foldl (fun sum t => (sum + abs (pnl t))%float) 0%float (List.filter is_loss ts).

Definition metrics (ts : list Trade) : BacktestResult :=
  let totalTrades := length ts in
  let wins := length (List.filter is_win ts) in
  let winRate := if negb (totalTrades =? 0)
                 then (of_nat wins / of_nat totalTrades * 100)%float
                 else 0%float in
  let profitFactor := if truthy (grossLoss ts)
                      then (grossProfit ts / grossLoss ts)%float else infinity in
  {| res_trades := ts; winRate := winRate; totalTrades := totalTrades;
     profitFactor := profitFactor |}.

Definition runBacktest (data : list PricePoint) (params : Params) : BacktestResult :=
  metrics (trades (simulate data params)).

(** The array of the doubles [xs], and a series from its closes. *)
Definition nums (xs : list float) : list value := VNum <$> xs.

Definition series (xs : list float) : list PricePoint :=
  imap (fun i x => {| date := Z.of_nat i; close := x |}) xs.

End Binary64.

(** * Doubles against rationals

    What ties the two embeddings: the rational a double stands for, and the
    test that an operation on doubles gave the exact result. *)

(** [2^e]. *)
Definition pow2 (e : Z) : Q :=
  match e with
  | Z0 => 1%Q
  | Zpos p => inject_Z (Z.pow_pos 2 p)
  | Zneg p => (1 # Pos.pow 2 p)%Q
  end.

(** The Number a double stands for: its rational value, an infinity or
    [NaN]; both zeros stand for 0. *)
Definition fval (x : PrimFloat.float) : number :=
  match FloatOps.Prim2SF x with
  | SpecFloat.S754_zero _ => Fin 0
  | SpecFloat.S754_infinity s => if s then NInf else PInf
  | SpecFloat.S754_nan => NaN
  | SpecFloat.S754_finite s m e =>
      Fin ((if s then - inject_Z (Zpos m) else inject_Z (Zpos m)) * pow2 e)
  end.

(** The rational value of a finite double, 0 for the others. *)
Definition fq (x : PrimFloat.float) : Q :=
  match fval x with Fin q => q | _ => 0%Q end.

Definition finite_double (x : PrimFloat.float) : bool :=
  match fval x with Fin _ => true | _ => false end.

(** [num_eq] as a test. *)
Definition num_eqb (a b : number) : bool :=
  match a, b with
  | Fin x, Fin y => Qeq_bool x y
  | NaN, NaN | PInf, PInf | NInf, NInf => true
  | _, _ => false
  end.

(** The operation [fop] on the doubles [a] and [b] gave what the exact
    operation [nop] gives on the Numbers they stand for: it did not round
    and did not overflow. *)
Definition exact2 (fop : PrimFloat.float -> PrimFloat.float -> PrimFloat.float)
    (nop : number -> number -> number) (a b : PrimFloat.float) : bool :=
  num_eqb (fval (fop a b)) (nop (fval a) (fval b)).

(** The double of the natural number [n] stands for [n]. *)
Definition exact_of_nat (n : nat) : bool :=
  num_eqb (fval (Binary64.of_nat n)) (of_nat n).

(** ** The operations of a run of [calculateSMA] are exact *)

(** The addition and the subtraction of the iteration for index [j]. *)
Definition sma_sum_step_exact (xs : list PrimFloat.float) (period j : nat)
  : bool :=
  let values := Binary64.nums xs in
  let sum0 := Binary64.sma_sum (Binary64.sma_loop values period j) in
  let sum1 := PrimFloat.add sum0 (Binary64.ToNumber (Binary64.aget values j)) in
  exact2 PrimFloat.add nadd sum0 (Binary64.ToNumber (Binary64.aget values j))
  && (if period <=? j
      then exact2 PrimFloat.sub nsub sum1
             (Binary64.ToNumber (Binary64.aget values (j - period)))
      else true).

(** The division of the iteration for index [j]. *)
Definition sma_div_step_exact (xs : list PrimFloat.float) (period j : nat)
  : bool :=
  let values := Binary64.nums xs in
  let sum2 := Binary64.sma_sum (Binary64.sma_loop values period (j + 1)) in
  if period - 1 <=? j
  then exact2 PrimFloat.div ndiv sum2 (Binary64.of_nat period)
  else true.

(** The inputs are finite and no addition or subtraction of the run rounds
    or overflows. *)
Definition sma_sums_exact (xs : list PrimFloat.float) (period : nat) : bool :=
  forallb finite_double xs
  && forallb (sma_sum_step_exact xs period) (seq 0 (length xs)).

(** No operation of the run rounds or overflows, the divisions included. *)
Definition sma_exact (xs : list PrimFloat.float) (period : nat) : bool :=
  sma_sums_exact xs period
  && exact_of_nat period
  && forallb (sma_div_step_exact xs period) (seq 0 (length xs)).

(** The mean of the window recomputed from scratch on doubles: the sum of
    [values[i - period + 1 .. i]] from left to right, divided by the
    period. *)
Definition window_mean_double (xs : list PrimFloat.float) (period i : nat)
  : PrimFloat.float :=
  PrimFloat.div
    (foldl PrimFloat.add PrimFloat.zero (drop (i + 1 - period) (take (i + 1) xs)))
    (Binary64.of_nat period).

(** ** The operations of a run of [calculateRSI] are exact *)

Section ExactRuns.

Import PrimFloat.







(** ** The operations of the metrics are exact *)

(** Every addition of [reduce((sum, x) => sum + x, acc)] over [xs]. *)
Fixpoint sum_exact (acc : float) (xs : list float) : bool :=
  match xs with
  | [] => true
  | x :: xs' => exact2 add nadd acc x && sum_exact (acc + x)%float xs'
  end.

(** The profits of the trades are finite. *)
Definition pnls_finite (ts : list Binary64.Trade) : bool :=
  forallb (fun t => finite_double (Binary64.pnl t)) ts.

(** The division and the multiplication of [(wins / totalTrades) * 100]. *)
Definition winRate_exact (ts : list Binary64.Trade) : bool :=
  let wins := length (List.filter Binary64.is_win ts) in
  let total := length ts in
  exact_of_nat wins
  && exact_of_nat total
  && exact2 div ndiv (Binary64.of_nat wins) (Binary64.of_nat total)
  && exact2 mul nmul (Binary64.of_nat wins / Binary64.of_nat total)%float
                     100%float.

(** The additions of the two sums and the division
    [grossProfit / grossLoss], when it is computed. *)
Definition profitFactor_exact (ts : list Binary64.Trade) : bool :=
  sum_exact 0%float (Binary64.pnl <$> List.filter Binary64.is_win ts)
  && sum_exact 0%float
       ((fun t => abs (Binary64.pnl t)) <$> List.filter Binary64.is_loss ts)
  && (if Binary64.truthy (Binary64.grossLoss ts)
      then exact2 div ndiv (Binary64.grossProfit ts) (Binary64.grossLoss ts)
      else true).

(** The rational profits of the trades. *)
Definition double_pnls (ts : list Binary64.Trade) : list Q :=
  List.map (fun t => fq (Binary64.pnl t)) ts.

End ExactRuns.

(** ** Concrete series of doubles *)

Section DoubleSeries.

Import PrimFloat.

(** A large value enters the window and leaves it again. *)
Definition cancelling_series : list float := [1e17; 1; 1; 1]%float.

Definition exact_sma_series : list float := [1; 2; 3; 4]%float.

Definition rounded_mean_series : list float := [1; 2; 4]%float.




Definition short_params : Binary64.Params :=
  {| Binary64.maPeriod := 2; Binary64.rsiPeriod := 2;
     Binary64.rsiOverbought := 70%float;
     Binary64.macdFast := 1; Binary64.macdSlow := 2; Binary64.macdSignal := 2 |}.

(** The closes 10, 9, 11, 8, 8 and the two parameter sets with a long
    warm-up, on doubles. *)
Definition dip_and_recover_doubles : list Binary64.PricePoint :=
  Binary64.series [10; 9; 11; 8; 8]%float.

Definition long_ma_params_doubles : Binary64.Params :=
  {| Binary64.maPeriod := 5; Binary64.rsiPeriod := 2;
     Binary64.rsiOverbought := 70%float;
     Binary64.macdFast := 1; Binary64.macdSlow := 2; Binary64.macdSignal := 2 |}.

Definition long_signal_params_doubles : Binary64.Params :=
  {| Binary64.maPeriod := 2; Binary64.rsiPeriod := 2;
     Binary64.rsiOverbought := 70%float;
     Binary64.macdFast := 1; Binary64.macdSlow := 2; Binary64.macdSignal := 5 |}.

(** A run with one win in three trades. *)
Definition one_in_three_series : list Binary64.PricePoint :=
  Binary64.series [6; 1; 9; 6; 8; 6; 8; 9]%float.

Definition one_in_three_params : Binary64.Params :=
  {| Binary64.maPeriod := 3; Binary64.rsiPeriod := 2;
     Binary64.rsiOverbought := 70%float;
     Binary64.macdFast := 1; Binary64.macdSlow := 2; Binary64.macdSignal := 2 |}.

(** A run with a tiny loss and a huge profit. *)
Definition tiny_loss_series : list Binary64.PricePoint :=
  Binary64.series
    [0x9p-530; 0x8p-530; 0xap-530; 0x1p-530; 0x4p-530;
     0xap+500; 0x9p+500; 0x3p+500]%float.

(** A run with a loss of 8 and a profit of 4. *)
Definition loss_then_win_series : list Binary64.PricePoint :=
  Binary64.series [7; 3; 10; 2; 4; 8]%float.

End DoubleSeries.

(** ** Doubles that are not negative *)

(** A result that carries the sign [sx] and is not [NaN]. *)
Definition has_sign (sx : bool) (x : SpecFloat.spec_float) : Prop :=
  match x with
  | SpecFloat.S754_zero s | SpecFloat.S754_infinity s
  | SpecFloat.S754_finite s _ _ => s = sx
  | SpecFloat.S754_nan => False
  end.

(** A zero, a positive finite double or the positive infinity. *)
Definition nonneg_sf (x : SpecFloat.spec_float) : bool :=
  match x with
  | SpecFloat.S754_zero _ => true
  | SpecFloat.S754_infinity s => negb s
  | SpecFloat.S754_nan => false
  | SpecFloat.S754_finite s _ _ => negb s
  end.

Definition nonneg_double (x : PrimFloat.float) : bool :=
  nonneg_sf (FloatOps.Prim2SF x).

(** ** Rounding to nearest: the classes of doubles the bounds are stated on *)








(** * Properties *)

(** ** Tests on loop indices *)

(** Replace a boolean test on indices by the value [lia] proves it has. *)
Ltac nat_test_is b t :=
  replace t with b
    by (symmetry;
        first [ apply Nat.leb_le | apply Nat.leb_gt | apply Nat.ltb_lt
              | apply Nat.ltb_ge | apply Nat.eqb_eq | apply Nat.eqb_neq ];
        lia).

Tactic Notation "nat_test_true" constr(t) := nat_test_is true t.
Tactic Notation "nat_test_false" constr(t) := nat_test_is false t.
Tactic Notation "nat_test_true" constr(t) "in" hyp(H) :=
  replace t with true in H
    by (symmetry;
        first [ apply Nat.leb_le | apply Nat.ltb_lt | apply Nat.eqb_eq ]; lia).
Tactic Notation "nat_test_false" constr(t) "in" hyp(H) :=
  replace t with false in H
    by (symmetry;
        first [ apply Nat.leb_gt | apply Nat.ltb_ge | apply Nat.eqb_neq ]; lia).

(** ** Arrays *)

Lemma aget_lookup (a : array) (i : nat) (v : value) :
  a !! i = Some v -> aget a i = v.
Proof. unfold aget. intros ->. reflexivity. Qed.

Lemma aget_out_of_range (a : array) (i : nat) :
  length a <= i -> aget a i = VUndefined.
Proof. intros H. unfold aget. rewrite lookup_ge_None_2; [reflexivity | lia]. Qed.

Lemma length_aset (a : array) (i : nat) (v : value) :
  length (aset a i v) = Nat.max (length a) (i + 1).
Proof.
  unfold aset. destruct (Nat.ltb_spec i (length a)).
  - rewrite length_insert. lia.
  - rewrite !length_app, length_replicate. simpl. lia.
Qed.

Lemma length_aset_in_range (a : array) (i : nat) (v : value) :
  i < length a -> length (aset a i v) = length a.
Proof. intros H. rewrite length_aset. lia. Qed.

Lemma aget_aset_eq (a : array) (i : nat) (v : value) :
  aget (aset a i v) i = v.
Proof.
  unfold aset. destruct (Nat.ltb_spec i (length a)) as [Hlt | Hge].
  - apply aget_lookup, list_lookup_insert_eq, Hlt.
  - apply aget_lookup. rewrite lookup_app_r by lia.
    rewrite lookup_app_r by (rewrite length_replicate; lia).
    rewrite length_replicate. replace (i - length a - (i - length a)) with 0 by lia.
    reflexivity.
Qed.

Lemma aget_aset_ne (a : array) (i j : nat) (v : value) :
  i <> j -> aget (aset a i v) j = aget a j.
Proof.
  intros Hne. unfold aset. destruct (Nat.ltb_spec i (length a)) as [Hlt | Hge].
  - unfold aget. rewrite list_lookup_insert_ne by exact Hne. reflexivity.
  - destruct (Nat.lt_ge_cases j (length a)) as [Hj | Hj].
    + unfold aget. rewrite lookup_app_l by exact Hj. reflexivity.
    + rewrite (aget_out_of_range a j Hj).
      unfold aget. rewrite lookup_app_r by exact Hj.
      destruct (Nat.lt_ge_cases j i) as [Hji | Hji].
      * rewrite lookup_app_l by (rewrite length_replicate; lia).
        rewrite lookup_replicate_2 by lia. reflexivity.
      * rewrite lookup_ge_None_2; [reflexivity |].
        rewrite length_app, length_replicate. simpl. lia.
Qed.

Lemma aget_filled_null (n i : nat) : i < n -> aget (filled_null n) i = VNull.
Proof. intros H. apply aget_lookup, lookup_replicate_2, H. Qed.

Lemma length_filled_null (n : nat) : length (filled_null n) = n.
Proof. apply length_replicate. Qed.

(** Two arrays of one length with the same slots are the same array. *)
Lemma array_ext (a b : array) :
  length a = length b ->
  (forall i, i < length a -> aget a i = aget b i) ->
  a = b.
Proof.
  intros Hlen Hget. apply list_eq_same_length with (n := length a); auto.
  intros i x y Hi Hx Hy.
  specialize (Hget i Hi). unfold aget in Hget. rewrite Hx, Hy in Hget.
  exact Hget.
Qed.

(** ** Loops *)

(** The invariant rule of a [for] loop: [P i s] relates the loop index to
    the locals when the iteration for [i] starts. *)
Lemma for_loop_invariant {St : Type} (body : St -> nat -> St)
    (P : nat -> St -> Prop) (lo n : nat) (s0 : St) :
  P lo s0 ->
  (forall i s, lo <= i < lo + n -> P i s -> P (i + 1) (body s i)) ->
  P (lo + n) (foldl body s0 (seq lo n)).
Proof.
  intros Hinit Hstep. induction n as [| n IH].
  - rewrite Nat.add_0_r. exact Hinit.
  - rewrite seq_S, foldl_app. simpl.
    replace (lo + S n) with (lo + n + 1) by lia.
    apply Hstep; [lia |]. apply IH.
    intros i s Hi. apply Hstep. lia.
Qed.

Lemma range_snoc (lo hi : nat) : lo <= hi -> range lo (hi + 1) = range lo hi ++ [hi].
Proof.
  intros H. unfold range. replace (hi + 1 - lo) with (S (hi - lo)) by lia.
  rewrite seq_S. repeat f_equal. lia.
Qed.

Lemma range_empty (lo hi : nat) : hi <= lo -> range lo hi = [].
Proof. intros H. unfold range. replace (hi - lo) with 0 by lia. reflexivity. Qed.

(** ** Numeric sequences *)

Lemma length_nums (qs : list Q) : length (nums qs) = length qs.
Proof. apply length_fmap. Qed.

Lemma aget_nums (qs : list Q) (i : nat) (q : Q) :
  qs !! i = Some q -> aget (nums qs) i = VNum (Fin q).
Proof.
  intros H. apply aget_lookup. unfold nums. rewrite list_lookup_fmap, H.
  reflexivity.
Qed.

Lemma Qeq_bool_of_nat_pos (p : nat) :
  0 < p -> Qeq_bool (inject_Z (Z.of_nat p)) 0 = false.
Proof.
  intros Hp. destruct (Qeq_bool _ _) eqn:E; [| reflexivity].
  apply Qeq_bool_eq in E. unfold Qeq in E. simpl in E. lia.
Qed.

Lemma ndiv_of_nat (s : Q) (p : nat) :
  0 < p -> ndiv (Fin s) (of_nat p) = Fin (s / inject_Z (Z.of_nat p)).
Proof. intros Hp. simpl. rewrite Qeq_bool_of_nat_pos by exact Hp. reflexivity. Qed.

(** ** SMA: the window the running sum covers *)

Lemma qsum_cons (x : Q) (l : list Q) : qsum (x :: l) = (x + qsum l)%Q.
Proof. reflexivity. Qed.

Lemma qsum_snoc (l : list Q) (q : Q) : (qsum (l ++ [q]) == qsum l + q)%Q.
Proof.
  induction l as [| x l IH].
  - unfold qsum. simpl. ring.
  - change ((x :: l) ++ [q]) with (x :: (l ++ [q])).
    rewrite !qsum_cons, IH. ring.
Qed.

Lemma trailing_window (qs : list Q) (period i : nat) :
  trailing qs period (i + 1) = window qs period i.
Proof. reflexivity. Qed.

Lemma trailing_grow (qs : list Q) (period j : nat) (q : Q) :
  qs !! j = Some q -> j < period ->
  (qsum (trailing qs period (j + 1)) == qsum (trailing qs period j) + q)%Q.
Proof.
  intros Hq Hj. unfold trailing.
  replace (j + 1 - period) with 0 by lia. replace (j - period) with 0 by lia.
  rewrite Nat.add_1_r, (take_S_r _ _ _ Hq), !drop_0. apply qsum_snoc.
Qed.

Lemma trailing_slide (qs : list Q) (period j : nat) (q q' : Q) :
  0 < period -> period <= j ->
  qs !! j = Some q -> qs !! (j - period) = Some q' ->
  (qsum (trailing qs period (j + 1)) == qsum (trailing qs period j) + q - q')%Q.
Proof.
  intros Hp Hj Hq Hq'. unfold trailing.
  assert (Hlen : length (take j qs) = j).
  { apply length_take_le. apply lookup_lt_Some in Hq. lia. }
  rewrite Nat.add_1_r, (take_S_r _ _ _ Hq).
  replace (S j - period) with (S (j - period)) by lia.
  rewrite (drop_S (take j qs) q' (j - period)).
  2:{ rewrite lookup_take_lt by lia. exact Hq'. }
  rewrite drop_app_le by (rewrite Hlen; lia).
  rewrite qsum_snoc, qsum_cons. ring.
Qed.

(** ** EMA: the recurrence and the masked output *)

Lemma calculateEMA_loop (values : array) (period : nat) :
  calculateEMA values period = ema_out (ema_loop values period (length values)).
Proof. reflexivity. Qed.

Lemma ema_loop_step (values : array) (period j : nat) :
  ema_loop values period (j + 1)
  = ema_body values period (ema_loop values period j) j.
Proof.
  unfold ema_loop. rewrite range_snoc by lia. rewrite foldl_app. reflexivity.
Qed.

Lemma ema_running_0 (values : array) (period : nat) :
  ema_running values period 0 = aget values 0.
Proof. reflexivity. Qed.

Lemma ema_running_step (values : array) (period i : nat) :
  ema_running values period (i + 1)
  = ema_next (ema_k period) (ema_running values period i) (aget values (i + 1)).
Proof. unfold ema_running. rewrite (ema_loop_step values period (i + 1)). reflexivity. Qed.

Lemma aget_VNum (ns : list number) (i : nat) :
  i < length ns -> exists x, ns !! i = Some x /\ aget (VNum <$> ns) i = VNum x.
Proof.
  intros Hi. destruct (lookup_lt_is_Some_2 ns i Hi) as [x Hx].
  exists x. split; [exact Hx |].
  apply aget_lookup. rewrite list_lookup_fmap, Hx. reflexivity.
Qed.

(** On a sequence of Numbers the running value is a Number from index 0 on. *)
Lemma ema_running_number (ns : list number) (period i : nat) :
  i < length ns -> exists x, ema_running (VNum <$> ns) period i = VNum x.
Proof.
  induction i as [| i IH]; intros Hi.
  - rewrite ema_running_0. destruct (aget_VNum ns 0 Hi) as [x [_ Hx]]. eauto.
  - destruct IH as [x Hx]; [lia |].
    replace (S i) with (i + 1) by lia.
    rewrite ema_running_step, Hx. simpl. eauto.
Qed.

Lemma ema_loop_slots (values : array) (period j : nat) :
  j <= length values ->
  length (ema_out (ema_loop values period j)) = length values
  /\ forall i, i < length values ->
       aget (ema_out (ema_loop values period j)) i
       = if (i <? j) && (period - 1 <=? i) then ema_running values period i
         else VNull.
Proof.
  induction j as [| j IH]; intros Hj.
  - split; [apply length_filled_null |].
    intros i Hi. apply aget_filled_null, Hi.
  - destruct IH as [Hlen Hslots]; [lia |].
    replace (S j) with (j + 1) by lia.
    assert (Hout : ema_out (ema_loop values period (j + 1))
                   = if period - 1 <=? j
                     then aset (ema_out (ema_loop values period j)) j
                               (ema_running values period j)
                     else ema_out (ema_loop values period j)).
    { unfold ema_running. rewrite ema_loop_step. reflexivity. }
    rewrite Hout. clear Hout.
    split.
    + destruct (period - 1 <=? j); [| exact Hlen].
      rewrite length_aset_in_range; lia.
    + intros i Hi. specialize (Hslots i Hi).
      destruct (Nat.eq_dec i j) as [-> | Hne].
      * nat_test_true (j <? j + 1).
        nat_test_false (j <? j) in Hslots.
        cbn [andb] in *. destruct (period - 1 <=? j); [| exact Hslots].
        apply aget_aset_eq.
      * replace (i <? j + 1) with (i <? j).
        2:{ destruct (Nat.ltb_spec i j), (Nat.ltb_spec i (j + 1)); auto; lia. }
        destruct (period - 1 <=? j); [| exact Hslots].
        rewrite aget_aset_ne by auto. exact Hslots.
Qed.

(** The output of [calculateEMA] on any array: the running value from
    index [period - 1] on, [null] before. *)
Lemma calculateEMA_slots (values : array) (period : nat) :
  length (calculateEMA values period) = length values
  /\ forall i, i < length values ->
       aget (calculateEMA values period) i
       = if period - 1 <=? i then ema_running values period i else VNull.
Proof.
  rewrite calculateEMA_loop.
  destruct (ema_loop_slots values period (length values)) as [Hlen Hslots]; [lia |].
  split; [exact Hlen |].
  intros i Hi. rewrite (Hslots i Hi).
  nat_test_true (i <? length values).
  reflexivity.
Qed.

Lemma ema_k_value (period : nat) :
  ema_k period = Fin (2 / (inject_Z (Z.of_nat period) + 1))%Q.
Proof.
  unfold ema_k, of_nat. simpl.
  destruct (Qeq_bool _ _) eqn:E; [| reflexivity].
  apply Qeq_bool_eq in E. unfold Qeq in E. simpl in E. lia.
Qed.


(** ** RSI: range of the output *)

Lemma Qle_bool_false (a b : Q) : Qle_bool a b = false -> (b < a)%Q.
Proof.
  intros H. apply Qnot_le_lt. intros C. apply Qle_bool_iff in C. congruence.
Qed.


Lemma Qpos_of_nat (p : nat) : 0 < p -> (0 < inject_Z (Z.of_nat p))%Q.
Proof. intros H. unfold Qlt, inject_Z. simpl. lia. Qed.








Lemma rsi_at_init (values : array) (period i : nat) :
  i <= period -> rsi_at values period i = rsi_init values period.
Proof. intros H. unfold rsi_at. rewrite range_empty by lia. reflexivity. Qed.

Lemma rsi_at_step (values : array) (period i : nat) :
  period <= i ->
  rsi_at values period (i + 1)
  = rsi_body values period (rsi_at values period i) (i + 1).
Proof.
  intros H. unfold rsi_at. rewrite (range_snoc _ (i + 1)) by lia.
  rewrite foldl_app. reflexivity.
Qed.

Lemma calculateRSI_at (values : array) (period : nat) :
  0 < length values ->
  calculateRSI values period = rsi_out (rsi_at values period (length values - 1)).
Proof.
  intros H. unfold calculateRSI, rsi_at.
  replace (length values - 1 + 1) with (length values) by lia. reflexivity.
Qed.


Lemma rsi_init_out (values : array) (period : nat) :
  rsi_out (rsi_init values period)
  = aset (filled_null (length values)) period
         (VNum (rsi_of (avgGain (rsi_init values period))
                       (avgLoss (rsi_init values period)))).
Proof.
  unfold rsi_init. destruct (rsi_seed values period) as [gains losses].
  reflexivity.
Qed.

(** The slots of the array after the iteration for index [period + m]:
    what is stored at an index is computed from the two averages as they
    are after that index. *)
Lemma rsi_at_slots (values : array) (period m : nat) :
  period + m < length values ->
  length (rsi_out (rsi_at values period (period + m))) = length values
  /\ forall i, i < length values ->
       aget (rsi_out (rsi_at values period (period + m))) i
       = if (period <=? i) && (i <=? period + m)
         then VNum (rsi_of (avgGain (rsi_at values period i))
                           (avgLoss (rsi_at values period i)))
         else VNull.
Proof.
  induction m as [| m IH]; intros Hm.
  - rewrite Nat.add_0_r in *. rewrite (rsi_at_init values period period) by lia.
    rewrite rsi_init_out. split.
    + rewrite length_aset_in_range; rewrite length_filled_null; lia.
    + intros i Hi. destruct (Nat.eq_dec i period) as [-> | Hne].
      * rewrite aget_aset_eq, Nat.leb_refl.
        rewrite (rsi_at_init values period period) by lia. reflexivity.
      * rewrite aget_aset_ne by auto. rewrite aget_filled_null by exact Hi.
        destruct (Nat.leb_spec period i), (Nat.leb_spec i period);
          try reflexivity; lia.
  - destruct IH as [Hlen Hslots]; [lia |].
    replace (period + S m) with (period + m + 1) by lia.
    assert (Hout : rsi_out (rsi_at values period (period + m + 1))
                   = aset (rsi_out (rsi_at values period (period + m)))
                       (period + m + 1)
                       (VNum (rsi_of (avgGain (rsi_at values period (period + m + 1)))
                                     (avgLoss (rsi_at values period (period + m + 1)))))).
    { rewrite rsi_at_step by lia. reflexivity. }
    rewrite Hout. clear Hout. split.
    + rewrite length_aset_in_range; lia.
    + intros i Hi. destruct (Nat.eq_dec i (period + m + 1)) as [-> | Hne].
      * rewrite aget_aset_eq.
        nat_test_true (period <=? period + m + 1).
        rewrite Nat.leb_refl. reflexivity.
      * rewrite aget_aset_ne by auto. rewrite (Hslots i Hi).
        replace (i <=? period + m + 1) with (i <=? period + m); [reflexivity |].
        destruct (Nat.leb_spec i (period + m)), (Nat.leb_spec i (period + m + 1));
          auto; lia.
Qed.

(** The output of [calculateRSI] on any array longer than the period. *)
Lemma calculateRSI_slots (values : array) (period : nat) :
  period < length values ->
  length (calculateRSI values period) = length values
  /\ forall i, i < length values ->
       aget (calculateRSI values period) i
       = if period <=? i
         then VNum (rsi_of (avgGain (rsi_at values period i))
                           (avgLoss (rsi_at values period i)))
         else VNull.
Proof.
  intros Hlen. rewrite calculateRSI_at by lia.
  destruct (rsi_at_slots values period (length values - 1 - period)) as [Hl Hs];
    [lia |].
  replace (period + (length values - 1 - period)) with (length values - 1) in *
    by lia.
  split; [exact Hl |].
  intros i Hi. rewrite (Hs i Hi).
  nat_test_true (i <=? length values - 1).
  rewrite andb_true_r. reflexivity.
Qed.

(** ** Series shorter than the warm-up *)

(** [calculateSMA] on any array shorter than the period: the array of
    [null]s it started from. *)
Lemma calculateSMA_short (values : array) (period : nat) :
  length values < period ->
  calculateSMA values period = filled_null (length values).
Proof.
  intros Hlen. unfold calculateSMA, range. rewrite Nat.sub_0_r.
  apply (for_loop_invariant (sma_body values period)
           (fun _ st => sma_result st = filled_null (length values)) 0).
  - reflexivity.
  - intros i st Hi Hst. unfold sma_body. cbn [sma_result].
    nat_test_false (period - 1 <=? i).
    exact Hst.
Qed.

(** [calculateEMA] on any array shorter than the period: likewise. *)
Lemma calculateEMA_short (values : array) (period : nat) :
  length values < period ->
  calculateEMA values period = filled_null (length values).
Proof.
  intros Hlen. destruct (calculateEMA_slots values period) as [Hl Hs].
  apply array_ext.
  - rewrite Hl, length_filled_null. reflexivity.
  - intros i Hi. rewrite Hl in Hi. rewrite (Hs i Hi), aget_filled_null by exact Hi.
    nat_test_false (period - 1 <=? i).
    reflexivity.
Qed.

(** In the seeding loop of [calculateRSI] the first read past the end of
    the input turns [losses] into [NaN], and it stays so. *)
Lemma rsi_seed_body_NaN (values : array) (st : number * number) (i : nat) :
  snd st = NaN \/ length values <= i ->
  snd (rsi_seed_body values st i) = NaN.
Proof.
  intros H. unfold rsi_seed_body. destruct H as [H | H].
  - destruct (nle _ _); cbn [snd]; rewrite H; reflexivity.
  - rewrite (aget_out_of_range values i H). unfold js_sub. cbn [ToNumber].
    cbn. destruct (snd st); reflexivity.
Qed.

Lemma rsi_seed_short (values : array) (period : nat) :
  0 < period -> length values <= period ->
  snd (rsi_seed values period) = NaN.
Proof.
  intros Hp Hlen. unfold rsi_seed.
  assert (H : Nat.max (length values) 1 < 1 + period ->
              snd (foldl (rsi_seed_body values) (Fin 0, Fin 0) (seq 1 period)) = NaN).
  { apply (for_loop_invariant (rsi_seed_body values)
             (fun i st => Nat.max (length values) 1 < i -> snd st = NaN) 1 period).
    - lia.
    - intros i st Hi Hst Hmax. apply rsi_seed_body_NaN.
      destruct (Nat.lt_ge_cases (Nat.max (length values) 1) i) as [Hlt | Hge].
      + left. apply Hst, Hlt.
      + right. lia. }
  apply H. lia.
Qed.

Lemma rsi_of_NaN (g : number) : rsi_of g NaN = NaN.
Proof. unfold rsi_of. destruct g; reflexivity. Qed.

(** [calculateRSI] on any array no longer than the positive period: the
    write to [rsi[period]] lands past the end, so the array grows to
    [period + 1] slots, and what is written is [NaN]. *)
Lemma calculateRSI_short (values : array) (period : nat) :
  0 < period -> length values <= period ->
  calculateRSI values period
  = filled_null (length values)
    ++ replicate (period - length values) VUndefined ++ [VNum NaN].
Proof.
  intros Hp Hlen. unfold calculateRSI. rewrite range_empty by lia. cbn [foldl].
  rewrite rsi_init_out.
  assert (HNaN : avgLoss (rsi_init values period) = NaN).
  { pose proof (rsi_seed_short values period Hp Hlen) as Hs.
    unfold rsi_init. destruct (rsi_seed values period) as [gains losses].
    cbn [snd] in Hs. subst losses. cbn [avgLoss]. destruct period; reflexivity. }
  rewrite HNaN, rsi_of_NaN. unfold aset.
  rewrite length_filled_null.
  nat_test_false (period <? length values).
  reflexivity.
Qed.

(** C3 -- [calculateRSI] on the three closes 10, 11, 12 with the period 14:
    the result has 15 slots, not 3, and its last slot is a computed [NaN];
    [calculateSMA] and [calculateEMA] on the same input give three
    [null]s. *)
Theorem calculateRSI_short_series_grows_with_NaN :
  calculateRSI (nums [10; 11; 12]%Q) 14
  = [VNull; VNull; VNull] ++ replicate 11 VUndefined ++ [VNum NaN]
  /\ length (calculateRSI (nums [10; 11; 12]%Q) 14) = 15
  /\ aget (calculateRSI (nums [10; 11; 12]%Q) 14) 14 = VNum NaN
  /\ calculateSMA (nums [10; 11; 12]%Q) 14 = [VNull; VNull; VNull]
  /\ calculateEMA (nums [10; 11; 12]%Q) 14 = [VNull; VNull; VNull].
Proof.
  assert (H : calculateRSI (nums [10; 11; 12]%Q) 14
              = [VNull; VNull; VNull] ++ replicate 11 VUndefined ++ [VNum NaN]).
  { apply (calculateRSI_short (nums [10; 11; 12]%Q) 14); simpl; lia. }
  split; [exact H |]. rewrite H.
  split; [reflexivity |]. split; [reflexivity |].
  split.
  - apply (calculateSMA_short (nums [10; 11; 12]%Q) 14). simpl. lia.
  - apply (calculateEMA_short (nums [10; 11; 12]%Q) 14). simpl. lia.
Qed.

(** ** MACD *)


Lemma aget_macd_line (values emaFast emaSlow : array) (i : nat) :
  i < length values ->
  aget (macd_line values emaFast emaSlow) i
  = if is_null (aget emaFast i) || is_null (aget emaSlow i) then VNull
    else VNum (js_sub (aget emaFast i) (aget emaSlow i)).
Proof.
  intros Hi. destruct (lookup_lt_is_Some_2 values i Hi) as [v Hv].
  apply aget_lookup. unfold macd_line. rewrite list_lookup_imap, Hv.
  reflexivity.
Qed.



(** ** The trading loop *)

Lemma sim_before_step (data : list PricePoint) (params : Params) (i : nat) :
  1 <= i ->
  sim_before data params (i + 1)
  = sim_body data params (indicators data params) (sim_before data params i) i.
Proof.
  intros Hi. unfold sim_before. rewrite range_snoc by exact Hi.
  rewrite foldl_app. reflexivity.
Qed.

Lemma sim_before_start (data : list PricePoint) (params : Params) (i : nat) :
  i <= 1 -> sim_before data params i = sim_init.
Proof. intros Hi. unfold sim_before. rewrite range_empty by exact Hi. reflexivity. Qed.

Lemma sim_inv_init (data : list PricePoint) (ind : Indicators) :
  sim_inv data ind 1 sim_init.
Proof.
  split; cbn.
  - intros k e x H. rewrite lookup_nil in H. discriminate.
  - intros k e1 x1 e2 x2 H. rewrite lookup_nil in H. discriminate.
  - discriminate.
  - constructor.
Qed.

Lemma sim_inv_weaken (data : list PricePoint) (ind : Indicators) (i : nat)
    (st : sim_state) :
  sim_inv data ind i st -> sim_inv data ind (i + 1) st.
Proof.
  intros [H1 H2 H3 H4]. split; auto.
  - intros k e x H. destruct (H1 k e x H). lia.
  - intros Hin. destruct (H3 Hin) as [Ha Hb]. split; [lia | exact Hb].
Qed.

Lemma sim_inv_step (data : list PricePoint) (params : Params) (ind : Indicators)
    (i : nat) (st : sim_state) :
  sim_inv data ind i st ->
  sim_inv data ind (i + 1) (sim_body data params ind st i).
Proof.
  intros Hinv. unfold sim_body.
  destruct (inTrade st) eqn:Hin; cbn [negb].
  - destruct (sellSignal ind i || (i =? length data - 1));
      [| apply sim_inv_weaken, Hinv].
    destruct Hinv as [H1 H2 H3 H4].
    destruct (H3 Hin) as [Hlt [Hprice [Hdate Hlast]]].
    split; cbn.
    + intros k e x H. apply lookup_snoc_Some in H.
      destruct H as [[_ H] | [_ H]].
      * destruct (H1 k e x H). lia.
      * inversion H; subst. lia.
    + intros k e1 x1 e2 x2 Ha Hb.
      apply lookup_snoc_Some in Ha. apply lookup_snoc_Some in Hb.
      destruct Hb as [[_ Hb] | [Hk Hb]].
      * destruct Ha as [[_ Ha] | [Hk' _]].
        -- apply (H2 k e1 x1 e2 x2 Ha Hb).
        -- apply lookup_lt_Some in Hb. lia.
      * destruct Ha as [[_ Ha] | [Hk' _]]; [| lia].
        inversion Hb; subst e2 x2.
        apply (Hlast e1 x1). rewrite last_lookup.
        replace (pred (length (spans st))) with k by lia. exact Ha.
    + discriminate.
    + apply Forall2_app; [exact H4 |].
      constructor; [| constructor].
      unfold trade_of_span. cbn. rewrite Hprice. auto.
  - destruct (buySignal ind (rsiOverbought params) i);
      [| apply sim_inv_weaken, Hinv].
    destruct Hinv as [H1 H2 H3 H4]. split; cbn.
    + intros k e x H. destruct (H1 k e x H). lia.
    + exact H2.
    + intros _. split; [lia |]. split; [reflexivity |]. split; [reflexivity |].
      intros e x H. rewrite last_lookup in H. apply H1 in H. lia.
    + exact H4.
Qed.

Lemma sim_before_inv (data : list PricePoint) (params : Params) (i : nat) :
  1 <= i ->
  sim_inv data (indicators data params) i (sim_before data params i).
Proof.
  intros Hi. unfold sim_before, range.
  replace i with (1 + (i - 1)) at 1 by lia.
  apply (for_loop_invariant
           (sim_body data params (indicators data params))
           (sim_inv data (indicators data params)) 1 (i - 1)).
  - apply sim_inv_init.
  - intros j st _. apply sim_inv_step.
Qed.

Lemma simulate_inv (data : list PricePoint) (params : Params) :
  sim_inv data (indicators data params) (Nat.max 1 (length data))
          (simulate data params).
Proof.
  unfold simulate. destruct (Nat.le_gt_cases 1 (length data)) as [H | H].
  - rewrite Nat.max_r by exact H. apply sim_before_inv, H.
  - rewrite sim_before_start by lia. rewrite Nat.max_l by lia. apply sim_inv_init.
Qed.

(** C9 -- In the sequence of trades the loop emits, the trade at position
    [k] is the one entered at row [e] and left at row [x] of the [k]-th
    span; every trade's exit index is strictly greater than its entry index,
    and of two consecutive trades the later one is entered strictly after
    the exit of the earlier one. *)
Theorem trades_never_overlap (data : list PricePoint) (params : Params) :
  Forall2 (trade_of_span data (indicators data params))
          (spans (simulate data params)) (trades (simulate data params))
  /\ (forall k e x,
        spans (simulate data params) !! k = Some (e, x) ->
        e < x /\ x < length data)
  /\ (forall k e1 x1 e2 x2,
        spans (simulate data params) !! k = Some (e1, x1) ->
        spans (simulate data params) !! (k + 1) = Some (e2, x2) ->
        x1 < e2).
Proof.
  destruct (simulate_inv data params) as [H1 H2 _ H4].
  split; [exact H4 |]. split; [| exact H2].
  intros k e x H. destruct (H1 k e x H) as [Ha Hb]. split; [exact Ha | lia].
Qed.

(** C2 -- If a position is open when the loop reaches the final index,
    that iteration pushes a trade whatever the signal: the trade list is
    not empty, its last trade is left at the last row of the series (exit
    index [length data - 1], with that row's date and close), and the loop
    ends with no position open. *)
Theorem final_bar_liquidation (data : list PricePoint) (params : Params) :
  inTrade (sim_before data params (length data - 1)) = true ->
  exists t e,
    last (trades (simulate data params)) = Some t
    /\ last (spans (simulate data params)) = Some (e, length data - 1)
    /\ exitDate t = date <$> data !! (length data - 1)
    /\ exitPrice t = aget (closes (indicators data params)) (length data - 1)
    /\ inTrade (simulate data params) = false.
Proof.
  intros Hopen.
  destruct (Nat.le_gt_cases (length data - 1) 1) as [Hshort | Hlong].
  - rewrite sim_before_start in Hopen by exact Hshort. discriminate.
  - assert (Hsim : simulate data params
                   = sim_body data params (indicators data params)
                       (sim_before data params (length data - 1))
                       (length data - 1)).
    { unfold simulate. rewrite <- sim_before_step by lia. f_equal. lia. }
    rewrite Hsim. unfold sim_body.
    rewrite Hopen, Nat.eqb_refl, orb_true_r. cbn.
    eexists _, _. rewrite !last_snoc. repeat split; reflexivity.
Qed.

(** ** The closes of a run *)

Lemma closes_indicators (data : list PricePoint) (params : Params) :
  closes (indicators data params) = (fun d => VNum (close d)) <$> data.
Proof. reflexivity. Qed.

(** ** Undefined indicators and the entry rule *)

(** What the entry rule does check: a position is opened only at an index
    where the two MACD slots it compares and the RSI slot are not [null]. *)
Lemma entry_needs_macd_rsi (data : list PricePoint) (params : Params)
    (ind : Indicators) (st : sim_state) (i : nat) :
  inTrade st = false ->
  inTrade (sim_body data params ind st i) = true ->
  aget (macdLine ind) (i - 1) <> VNull
  /\ aget (macdLine ind) i <> VNull
  /\ aget (rsi ind) i <> VNull.
Proof.
  intros Hflat. unfold sim_body. rewrite Hflat. cbn [negb].
  destruct (buySignal ind (rsiOverbought params) i) eqn:Hbuy.
  - intros _. unfold buySignal in Hbuy.
    repeat (apply andb_true_iff in Hbuy; destruct Hbuy as [Hbuy ?]).
    repeat split; intros Hnull;
      match goal with
      | H : negb (is_null ?v) = true |- _ =>
          rewrite Hnull in H; discriminate H
      end.
  - rewrite Hflat. discriminate.
Qed.

(** C1 -- On the closes 10, 9, 11, 8, 8 with [maPeriod = 5] (and RSI period
    2, threshold 70, MACD periods 1, 2, 2) the SMA is still [null] at index
    2, no position is open when index 2 is reached, the entry rule holds
    there, and the position is opened: the one trade of the run is entered
    at index 2.  [close > null] compares the close with 0. *)
Theorem entry_fires_during_sma_warmup :
  aget (sma (indicators dip_and_recover long_ma_params)) 2 = VNull
  /\ inTrade (sim_before dip_and_recover long_ma_params 2) = false
  /\ buySignal (indicators dip_and_recover long_ma_params)
               (rsiOverbought long_ma_params) 2 = true
  /\ inTrade (sim_before dip_and_recover long_ma_params 3) = true
  /\ cur_entryIdx (sim_before dip_and_recover long_ma_params 3) = 2
  /\ spans (simulate dip_and_recover long_ma_params) = [(2, 3)].
Proof. vm_compute. repeat split; reflexivity. Qed.

(** C10 -- A [null] signal slot compares as the number 0 in the four
    comparisons of the two crossover tests; and on the closes 10, 9, 11, 8, 8
    with the signal period 5 and the MACD EMA periods 1 and 2, the run opens
    a position at index 2 and closes it at index 3 on the bearish crossover
    (3 is not the last index), the signal line being [null] at indices 1, 2
    and 3. *)
Theorem null_signal_compares_as_zero :
  (forall m : value,
      js_le m VNull = js_le m (VNum (Fin 0))
      /\ js_gt m VNull = js_gt m (VNum (Fin 0))
      /\ js_ge m VNull = js_ge m (VNum (Fin 0))
      /\ js_lt m VNull = js_lt m (VNum (Fin 0)))
  /\ exists data params e x,
       macdFast params < macdSignal params
       /\ macdSlow params < macdSignal params
       /\ spans (simulate data params) = [(e, x)]
       /\ aget (signalLine (indicators data params)) (e - 1) = VNull
       /\ aget (signalLine (indicators data params)) e = VNull
       /\ aget (signalLine (indicators data params)) x = VNull
       /\ inTrade (sim_before data params e) = false
       /\ buySignal (indicators data params) (rsiOverbought params) e = true
       /\ inTrade (sim_before data params x) = true
       /\ sellSignal (indicators data params) x = true
       /\ x < length data - 1
       /\ js_le (aget (macdLine (indicators data params)) (e - 1)) (VNum (Fin 0)) = true
       /\ js_gt (aget (macdLine (indicators data params)) e) (VNum (Fin 0)) = true
       /\ js_lt (aget (macdLine (indicators data params)) x) (VNum (Fin 0)) = true.
Proof.
  split.
  - intros m. repeat split; reflexivity.
  - exists dip_and_recover, long_signal_params, 2, 3.
    vm_compute. repeat split; try reflexivity; lia.
Qed.

(** ** The end-to-end example of the specification *)

(** The run opens at index 6 and is force-closed at index 9. *)
Example example_run : spans (simulate example_series example_params) = [(6, 9)].
Proof. vm_compute. reflexivity. Qed.

Example example_metrics :
  totalTrades (runBacktest example_series example_params) = 1
  /\ profitFactor (runBacktest example_series example_params) = PInf
  /\ num_eq (winRate (runBacktest example_series example_params)) (Fin 100).
Proof. vm_compute. repeat split; reflexivity. Qed.

(** The degenerate example: a series of one row. *)
Example single_row_run :
  trades (simulate (series [10%Q]) example_params) = []
  /\ winRate (runBacktest (series [10%Q]) example_params) = Fin 0
  /\ profitFactor (runBacktest (series [10%Q]) example_params) = PInf.
Proof. vm_compute. repeat split; reflexivity. Qed.

(** An entry at the final index itself: the loop ends with the position
    open and no trade recorded for it. *)
Example entry_at_last_bar_stays_open :
  inTrade (sim_before (series [10; 9; 11]%Q) long_signal_params 2) = false
  /\ inTrade (simulate (series [10; 9; 11]%Q) long_signal_params) = true
  /\ trades (simulate (series [10; 9; 11]%Q) long_signal_params) = [].
Proof. vm_compute. repeat split; reflexivity. Qed.

(** ** The theorems at concrete inputs *)

Lemma final_bar_liquidation_witness :
  inTrade (sim_before example_series example_params (length example_series - 1))
  = true
  /\ exists t e,
       last (trades (simulate example_series example_params)) = Some t
       /\ last (spans (simulate example_series example_params))
          = Some (e, length example_series - 1)
       /\ exitDate t = date <$> example_series !! (length example_series - 1)
       /\ exitPrice t
          = aget (closes (indicators example_series example_params))
                 (length example_series - 1)
       /\ inTrade (simulate example_series example_params) = false.
Proof.
  split; [vm_compute; reflexivity |].
  apply (final_bar_liquidation example_series example_params).
  vm_compute. reflexivity.
Defined.


(** * Further properties of the code *)

(** ** SMA on any array *)

Lemma calculateSMA_loop (values : array) (period : nat) :
  calculateSMA values period = sma_result (sma_loop values period (length values)).
Proof. reflexivity. Qed.

Lemma sma_loop_step (values : array) (period j : nat) :
  sma_loop values period (j + 1)
  = sma_body values period (sma_loop values period j) j.
Proof.
  unfold sma_loop. rewrite range_snoc by lia. rewrite foldl_app. reflexivity.
Qed.

Lemma sma_loop_slots (values : array) (period j : nat) :
  j <= length values ->
  length (sma_result (sma_loop values period j)) = length values
  /\ forall i, i < length values ->
       aget (sma_result (sma_loop values period j)) i
       = if (i <? j) && (period - 1 <=? i)
         then VNum (ndiv (sma_sum (sma_loop values period (i + 1))) (of_nat period))
         else VNull.
Proof.
  induction j as [| j IH]; intros Hj.
  - split; [apply length_filled_null |].
    intros i Hi. apply aget_filled_null, Hi.
  - destruct IH as [Hlen Hslots]; [lia |].
    replace (S j) with (j + 1) by lia.
    assert (Hout : sma_result (sma_loop values period (j + 1))
                   = if period - 1 <=? j
                     then aset (sma_result (sma_loop values period j)) j
                            (VNum (ndiv (sma_sum (sma_loop values period (j + 1)))
                                        (of_nat period)))
                     else sma_result (sma_loop values period j)).
    { rewrite sma_loop_step. reflexivity. }
    rewrite Hout. clear Hout. split.
    + destruct (period - 1 <=? j); [| exact Hlen].
      rewrite length_aset_in_range; lia.
    + intros i Hi. specialize (Hslots i Hi).
      destruct (Nat.eq_dec i j) as [-> | Hne].
      * nat_test_true (j <? j + 1).
        nat_test_false (j <? j) in Hslots.
        cbn [andb] in *. destruct (period - 1 <=? j); [| exact Hslots].
        apply aget_aset_eq.
      * replace (i <? j + 1) with (i <? j).
        2:{ destruct (Nat.ltb_spec i j), (Nat.ltb_spec i (j + 1)); auto; lia. }
        destruct (period - 1 <=? j); [| exact Hslots].
        rewrite aget_aset_ne by auto. exact Hslots.
Qed.

(** X1 -- For any array and any period that is a natural number (0
    included), [calculateSMA] returns an array of the length of its input
    whose slots before index [period - 1] are [null] and whose later slots
    are Numbers (never [null] or a hole). *)
Theorem calculateSMA_shape (values : array) (period : nat) :
  length (calculateSMA values period) = length values
  /\ Forall (fun v => v <> VUndefined) (calculateSMA values period)
  /\ (forall i, i < length values ->
        (aget (calculateSMA values period) i = VNull <-> i < period - 1)).
Proof.
  rewrite calculateSMA_loop.
  destruct (sma_loop_slots values period (length values)) as [Hlen Hslots]; [lia |].
  split; [exact Hlen |]. split.
  - apply Forall_lookup. intros i v Hv.
    assert (Hi : i < length values).
    { rewrite <- Hlen. apply lookup_lt_Some in Hv. exact Hv. }
    specialize (Hslots i Hi). unfold aget in Hslots. rewrite Hv in Hslots.
    cbn in Hslots. cbn beta. rewrite Hslots.
    match goal with |- (if ?c then _ else _) <> _ => destruct c end; discriminate.
  - intros i Hi. rewrite (Hslots i Hi).
    nat_test_true (i <? length values). cbn [andb].
    destruct (Nat.leb_spec (period - 1) i) as [Hle | Hgt]; split; intros Hx;
      try discriminate; try reflexivity; lia.
Qed.

Lemma nadd_NaN_r (x : number) : nadd x NaN = NaN.
Proof. destruct x; reflexivity. Qed.

Lemma sma_body_sum_NaN (values : array) (period : nat) (st : sma_state) (j : nat) :
  sma_sum st = NaN \/ ToNumber (aget values j) = NaN ->
  sma_sum (sma_body values period st j) = NaN.
Proof.
  intros H. unfold sma_body. cbn [sma_sum].
  assert (Hadd : nadd (sma_sum st) (ToNumber (aget values j)) = NaN).
  { destruct H as [-> | ->]; [reflexivity | apply nadd_NaN_r]. }
  rewrite Hadd. destruct (period <=? j); reflexivity.
Qed.

Lemma sma_loop_sum_NaN (values : array) (period j m : nat) :
  ToNumber (aget values j) = NaN ->
  sma_sum (sma_loop values period (j + 1 + m)) = NaN.
Proof.
  intros HNaN. induction m as [| m IH].
  - rewrite Nat.add_0_r, sma_loop_step. apply sma_body_sum_NaN. right. exact HNaN.
  - replace (j + 1 + S m) with (j + 1 + m + 1) by lia.
    rewrite sma_loop_step. apply sma_body_sum_NaN. left. exact IH.
Qed.

(** X2 -- One element that is not a number ([NaN], or [undefined]) poisons
    the running sum for good: every slot [calculateSMA] writes at or after
    the index of that element is [NaN], also once the window has moved past
    it. *)
Theorem calculateSMA_NaN_sticks (values : array) (period j i : nat) :
  ToNumber (aget values j) = NaN ->
  j <= i -> i < length values -> period - 1 <= i ->
  aget (calculateSMA values period) i = VNum NaN.
Proof.
  intros HNaN Hji Hi Hpi. rewrite calculateSMA_loop.
  destruct (sma_loop_slots values period (length values)) as [_ Hslots]; [lia |].
  rewrite (Hslots i Hi).
  nat_test_true (i <? length values). nat_test_true (period - 1 <=? i).
  cbn [andb].
  replace (i + 1) with (j + 1 + (i - j)) by lia.
  rewrite sma_loop_sum_NaN by exact HNaN. reflexivity.
Qed.

Lemma calculateSMA_NaN_sticks_witness :
  ToNumber (aget [VNum (Fin 1); VNum NaN; VNum (Fin 2); VNum (Fin 3)] 1) = NaN
  /\ 1 <= 3 /\ 3 < length [VNum (Fin 1); VNum NaN; VNum (Fin 2); VNum (Fin 3)]
  /\ 1 - 1 <= 3
  /\ aget (calculateSMA [VNum (Fin 1); VNum NaN; VNum (Fin 2); VNum (Fin 3)] 1) 3
     = VNum NaN.
Proof.
  split; [reflexivity |]. split; [lia |]. split; [simpl; lia |]. split; [lia |].
  apply (calculateSMA_NaN_sticks
           [VNum (Fin 1); VNum NaN; VNum (Fin 2); VNum (Fin 3)] 1 1 3);
    [reflexivity | lia | simpl; lia | lia].
Defined.

(** ** EMA on finite numbers *)

(** Induction on the recurrence of [calculateEMA] over finite numbers: a
    property of the inputs that one update preserves holds of the running
    value. *)
Lemma ema_running_fin_ind (P : Q -> Prop) (qs : list Q) (period : nat) :
  (forall q r, P q -> P r ->
     P (q * (2 / (inject_Z (Z.of_nat period) + 1))
        + r * (1 + - (2 / (inject_Z (Z.of_nat period) + 1))))%Q) ->
  forall i, i < length qs ->
    (forall j q, j <= i -> qs !! j = Some q -> P q) ->
    exists r, ema_running (nums qs) period i = VNum (Fin r) /\ P r.
Proof.
  intros Hstep. induction i as [| i IH]; intros Hi Hin.
  - destruct (lookup_lt_is_Some_2 qs 0 Hi) as [q Hq].
    rewrite ema_running_0, (aget_nums _ _ _ Hq).
    exists q. split; [reflexivity |]. apply (Hin 0 q); [lia | exact Hq].
  - destruct IH as [r [Hr HPr]]; [lia | intros j q Hj; apply Hin; lia |].
    destruct (lookup_lt_is_Some_2 qs (S i) Hi) as [q Hq].
    replace (S i) with (i + 1) in * by lia.
    rewrite ema_running_step, Hr, (aget_nums _ _ _ Hq), ema_k_value.
    eexists. split; [reflexivity |].
    apply Hstep; [apply (Hin (i + 1) q); [lia | exact Hq] | exact HPr].
Qed.

(** X5 -- With the period 1 the smoothing factor is 1: on finite numbers
    [calculateEMA] returns its input, every slot being the input's number at
    that index. *)
Theorem calculateEMA_period_1 (qs : list Q) (i : nat) (q : Q) :
  qs !! i = Some q ->
  exists r, aget (calculateEMA (nums qs) 1) i = VNum (Fin r) /\ (r == q)%Q.
Proof.
  intros Hq. assert (Hi : i < length qs) by (apply lookup_lt_Some in Hq; exact Hq).
  destruct (calculateEMA_slots (nums qs) 1) as [_ Hslots].
  rewrite length_nums in Hslots. rewrite (Hslots i Hi).
  nat_test_true (1 - 1 <=? i).
  destruct i as [| i].
  - rewrite ema_running_0, (aget_nums _ _ _ Hq). exists q. split; reflexivity.
  - destruct (ema_running_fin_ind (fun _ => True) qs 1) with (i := i)
      as [r [Hr _]]; [auto | lia | auto |].
    replace (S i) with (i + 1) in * by lia.
    rewrite ema_running_step, Hr, (aget_nums _ _ _ Hq), ema_k_value.
    eexists. split; [reflexivity |].
    assert (Hk : (2 / (inject_Z (Z.of_nat 1) + 1) == 1)%Q) by reflexivity.
    rewrite Hk. ring.
Qed.

Lemma calculateEMA_period_1_witness :
  [3; 5; 4]%Q !! 2 = Some 4%Q
  /\ exists r, aget (calculateEMA (nums [3; 5; 4]%Q) 1) 2 = VNum (Fin r)
               /\ (r == 4)%Q.
Proof.
  split; [reflexivity |].
  apply (calculateEMA_period_1 [3; 5; 4]%Q 2 4%Q). reflexivity.
Defined.

(** ** RSI on monotone series *)

(** Induction over the indices of the second loop of [calculateRSI]. *)
Lemma rsi_at_ind (P : rsi_state -> Prop) (values : array) (period n : nat) :
  P (rsi_init values period) ->
  (forall st i, period < i < n -> P st -> P (rsi_body values period st i)) ->
  forall i, i < n -> P (rsi_at values period i).
Proof.
  intros Hinit Hstep. induction i as [| i IH]; intros Hi.
  - rewrite rsi_at_init by lia. exact Hinit.
  - destruct (Nat.le_gt_cases period i) as [Hpi | Hpi].
    + replace (S i) with (i + 1) by lia. rewrite rsi_at_step by exact Hpi.
      apply Hstep; [lia | apply IH; lia].
    + rewrite rsi_at_init by lia. exact Hinit.
Qed.

(** The change [values[i] - values[i - 1]] on finite numbers. *)
Lemma change_nums (qs : list Q) (i : nat) :
  1 <= i < length qs ->
  exists a b, qs !! (i - 1) = Some b /\ qs !! i = Some a
              /\ js_sub (aget (nums qs) i) (aget (nums qs) (i - 1)) = Fin (a + - b).
Proof.
  intros [Hi1 Hi2].
  destruct (lookup_lt_is_Some_2 qs i Hi2) as [a Ha].
  destruct (lookup_lt_is_Some_2 qs (i - 1)) as [b Hb]; [lia |].
  exists a, b. split; [exact Hb |]. split; [exact Ha |].
  unfold js_sub. rewrite (aget_nums _ _ _ Ha), (aget_nums _ _ _ Hb). reflexivity.
Qed.

Lemma Qle_bool_true (a b : Q) : (a <= b)%Q -> Qle_bool a b = true.
Proof. apply Qle_bool_iff. Qed.

Lemma Qle_bool_lt_false (a b : Q) : (b < a)%Q -> Qle_bool a b = false.
Proof.
  intros H. destruct (Qle_bool a b) eqn:E; [| reflexivity].
  apply Qle_bool_iff in E. lra.
Qed.

Lemma rsi_seed_no_loss (qs : list Q) (period : nat) :
  period < length qs -> nondecreasing qs ->
  snd (rsi_seed (nums qs) period) = Fin 0.
Proof.
  intros Hlen Hmono. unfold rsi_seed.
  apply (for_loop_invariant (rsi_seed_body (nums qs))
           (fun _ st => snd st = Fin 0) 1 period).
  - reflexivity.
  - intros i st Hi Hst.
    destruct (change_nums qs i) as [a [b [Hb [Ha Hc]]]]; [lia |].
    unfold rsi_seed_body. rewrite Hc. cbn [nle].
    rewrite Qle_bool_true; [exact Hst |].
    assert (b <= a)%Q by (apply (Hmono (i - 1) b a Hb);
                          replace (i - 1 + 1) with i by lia; exact Ha).
    lra.
Qed.

Lemma wilder_zero (l : Q) (period : nat) :
  0 < period -> (l == 0)%Q ->
  exists l', wilder (Fin l) period (Fin 0) = Fin l' /\ (l' == 0)%Q.
Proof.
  intros Hp Hl. unfold wilder, of_nat. cbn [nsub nneg nadd nmul].
  change (Fin (inject_Z (Z.of_nat period))) with (of_nat period).
  rewrite ndiv_of_nat by exact Hp.
  eexists. split; [reflexivity |].
  pose proof (Qpos_of_nat period Hp). rewrite Hl. field. lra.
Qed.

Lemma rsi_at_no_loss (qs : list Q) (period i : nat) :
  0 < period -> period < length qs -> nondecreasing qs -> i < length qs ->
  exists l, avgLoss (rsi_at (nums qs) period i) = Fin l /\ (l == 0)%Q.
Proof.
  intros Hp Hlen Hmono.
  apply (rsi_at_ind (fun st => exists l, avgLoss st = Fin l /\ (l == 0)%Q)).
  - pose proof (rsi_seed_no_loss qs period Hlen Hmono) as Hs.
    unfold rsi_init. destruct (rsi_seed (nums qs) period) as [gains losses].
    cbn [snd] in Hs. subst losses. cbn [avgLoss].
    rewrite ndiv_of_nat by exact Hp. eexists. split; [reflexivity |].
    pose proof (Qpos_of_nat period Hp). field. lra.
  - intros st j Hj [l [El Hl]].
    destruct (change_nums qs j) as [a [b [Hb [Ha Hc]]]]; [lia |].
    unfold rsi_body. rewrite Hc, El. cbn [avgLoss nlt].
    assert (Hba : (b <= a)%Q) by (apply (Hmono (j - 1) b a Hb);
                                  replace (j - 1 + 1) with j by lia; exact Ha).
    unfold Qltb. rewrite Qle_bool_true by lra. cbn [negb].
    apply wilder_zero; assumption.
Qed.

(** X6 -- On a series of finite numbers that never falls (a flat series
    included), longer than the positive period, every slot [calculateRSI]
    writes is exactly 100. *)
Theorem calculateRSI_never_falling (qs : list Q) (period : nat) :
  0 < period -> period < length qs -> nondecreasing qs ->
  forall i, period <= i -> i < length qs ->
    aget (calculateRSI (nums qs) period) i = VNum (Fin 100).
Proof.
  intros Hp Hlen Hmono i Hpi Hi.
  destruct (calculateRSI_slots (nums qs) period) as [_ Hs].
  { rewrite length_nums. exact Hlen. }
  rewrite length_nums in Hs. rewrite (Hs i Hi).
  nat_test_true (period <=? i).
  destruct (rsi_at_no_loss qs period i Hp Hlen Hmono Hi) as [l [-> Hl]].
  unfold rsi_of. cbn [neqb].
  replace (Qeq_bool l 0) with true by (symmetry; apply Qeq_bool_iff, Hl).
  reflexivity.
Qed.

(** Settle [nondecreasing] on a literal list. *)
Ltac literal_monotone :=
  let i := fresh "i" in
  let Ha := fresh "Ha" in
  let Hb := fresh "Hb" in
  let Hlen := fresh "Hlen" in
  intros i ? ? Ha Hb;
  pose proof (lookup_lt_Some _ _ _ Hb) as Hlen; simpl in Hlen;
  repeat (destruct i as [| i];
          [ cbn in Ha, Hb; injection Ha as <-; injection Hb as <-;
            unfold Qle, Qlt; simpl; lia | ]);
  exfalso; lia.

Lemma calculateRSI_never_falling_witness :
  0 < 2 /\ 2 < length [1; 2; 2; 3]%Q /\ nondecreasing [1; 2; 2; 3]%Q
  /\ 2 <= 3 /\ 3 < length [1; 2; 2; 3]%Q
  /\ aget (calculateRSI (nums [1; 2; 2; 3]%Q) 2) 3 = VNum (Fin 100).
Proof.
  assert (Hmono : nondecreasing [1; 2; 2; 3]%Q) by literal_monotone.
  split; [lia |]. split; [simpl; lia |]. split; [exact Hmono |].
  split; [lia |]. split; [simpl; lia |].
  apply (calculateRSI_never_falling [1; 2; 2; 3]%Q 2);
    [lia | simpl; lia | exact Hmono | lia | simpl; lia].
Defined.

(** ** RSI on a series no longer than the period *)

Lemma calculateRSI_short_null (values : array) (period i : nat) :
  0 < period -> length values <= period -> i < length values ->
  aget (calculateRSI values period) i = VNull.
Proof.
  intros Hp Hlen Hi. rewrite (calculateRSI_short values period Hp Hlen).
  apply aget_lookup.
  rewrite lookup_app_l by (rewrite length_filled_null; exact Hi).
  apply lookup_replicate_2, Hi.
Qed.

(** X8 -- On any array no longer than the positive period, [calculateRSI]
    returns [period + 1] slots: [null] at every index of the input, holes up
    to index [period - 1], and [NaN] at index [period]. *)
Theorem calculateRSI_not_longer_than_period (values : array) (period : nat) :
  0 < period -> length values <= period ->
  length (calculateRSI values period) = period + 1
  /\ (forall i, i < length values -> aget (calculateRSI values period) i = VNull)
  /\ (forall i, length values <= i -> i < period ->
        aget (calculateRSI values period) i = VUndefined)
  /\ aget (calculateRSI values period) period = VNum NaN.
Proof.
  intros Hp Hlen.
  split; [| split; [intros i Hi; apply calculateRSI_short_null; assumption |]];
    rewrite (calculateRSI_short values period Hp Hlen); [| split].
  - rewrite !length_app, length_filled_null, length_replicate. simpl. lia.
  - intros i Hi1 Hi2. apply aget_lookup.
    rewrite lookup_app_r by (rewrite length_filled_null; exact Hi1).
    rewrite length_filled_null.
    rewrite lookup_app_l by (rewrite length_replicate; lia).
    apply lookup_replicate_2. lia.
  - apply aget_lookup.
    rewrite lookup_app_r by (rewrite length_filled_null; exact Hlen).
    rewrite length_filled_null.
    rewrite lookup_app_r by (rewrite length_replicate; lia).
    rewrite length_replicate.
    replace (period - length values - (period - length values)) with 0 by lia.
    reflexivity.
Qed.

Lemma calculateRSI_not_longer_than_period_witness :
  0 < 3 /\ length (nums [5; 6]%Q) <= 3
  /\ length (calculateRSI (nums [5; 6]%Q) 3) = 3 + 1
  /\ aget (calculateRSI (nums [5; 6]%Q) 3) 3 = VNum NaN.
Proof.
  assert (Hp : 0 < 3) by lia.
  assert (Hlen : length (nums [5; 6]%Q) <= 3) by (simpl; lia).
  destruct (calculateRSI_not_longer_than_period (nums [5; 6]%Q) 3 Hp Hlen)
    as [Hl [_ [_ HNaN]]].
  split; [exact Hp |]. split; [exact Hlen |]. split; [exact Hl | exact HNaN].
Defined.

(** ** The warm-up of the two MACD lines *)

Lemma aget_macd_line_null (ns : list number) (fastPeriod slowPeriod i : nat) :
  i < length ns ->
  aget (macd_line (VNum <$> ns) (calculateEMA (VNum <$> ns) fastPeriod)
                  (calculateEMA (VNum <$> ns) slowPeriod)) i = VNull
  <-> i < Nat.max fastPeriod slowPeriod - 1.
Proof.
  intros Hi.
  rewrite aget_macd_line by (rewrite length_fmap; exact Hi).
  destruct (calculateEMA_slots (VNum <$> ns) fastPeriod) as [_ Hf].
  destruct (calculateEMA_slots (VNum <$> ns) slowPeriod) as [_ Hs].
  rewrite length_fmap in Hf, Hs. rewrite (Hf i Hi), (Hs i Hi).
  destruct (ema_running_number ns fastPeriod i Hi) as [f ->].
  destruct (ema_running_number ns slowPeriod i Hi) as [s ->].
  destruct (Nat.leb_spec (fastPeriod - 1) i), (Nat.leb_spec (slowPeriod - 1) i);
    cbn; split; intros Hx; try discriminate; try reflexivity; lia.
Qed.

(** X9 -- On a sequence of Numbers, [macdLine] has the length of the input
    and is [null] exactly at the indices before
    [max fastPeriod slowPeriod - 1]. *)
Theorem macdLine_warmup (ns : list number) (fastPeriod slowPeriod signalPeriod : nat) :
  length (fst (calculateMACD (VNum <$> ns) fastPeriod slowPeriod signalPeriod))
  = length ns
  /\ forall i, i < length ns ->
       (aget (fst (calculateMACD (VNum <$> ns) fastPeriod slowPeriod signalPeriod)) i
        = VNull
        <-> i < Nat.max fastPeriod slowPeriod - 1).
Proof.
  unfold calculateMACD. cbn [fst]. split.
  - unfold macd_line. rewrite length_imap, length_fmap. reflexivity.
  - intros i Hi. apply aget_macd_line_null, Hi.
Qed.

Lemma ema_running_finite (qs : list Q) (period i : nat) :
  i < length qs -> exists r, ema_running (nums qs) period i = VNum (Fin r).
Proof.
  intros Hi.
  destruct (ema_running_fin_ind (fun _ => True) qs period) with (i := i)
    as [r [Hr _]]; eauto.
Qed.

(** On finite numbers a slot of [calculateEMA] is [null] or finite. *)
Lemma calculateEMA_null_or_fin (qs : list Q) (period i : nat) :
  i < length qs -> null_or_fin (aget (calculateEMA (nums qs) period) i).
Proof.
  intros Hi. destruct (calculateEMA_slots (nums qs) period) as [_ Hs].
  rewrite length_nums in Hs. rewrite (Hs i Hi).
  destruct (period - 1 <=? i); [right | left; reflexivity].
  apply ema_running_finite, Hi.
Qed.

(** The MACD line of finite numbers, slot by slot. *)
Lemma macd_line_fin (qs : list Q) (fastPeriod slowPeriod i : nat) :
  i < length qs ->
  null_or_fin
    (aget (macd_line (nums qs) (calculateEMA (nums qs) fastPeriod)
                     (calculateEMA (nums qs) slowPeriod)) i)
  /\ (i < Nat.max fastPeriod slowPeriod - 1 ->
      aget (macd_line (nums qs) (calculateEMA (nums qs) fastPeriod)
                      (calculateEMA (nums qs) slowPeriod)) i = VNull)
  /\ (fastPeriod = slowPeriod ->
      (fin_or_zero
         (aget (macd_line (nums qs) (calculateEMA (nums qs) fastPeriod)
                          (calculateEMA (nums qs) slowPeriod)) i) == 0)%Q).
Proof.
  intros Hi. rewrite aget_macd_line by (rewrite length_nums; exact Hi).
  destruct (calculateEMA_slots (nums qs) fastPeriod) as [_ Hf].
  destruct (calculateEMA_slots (nums qs) slowPeriod) as [_ Hs].
  rewrite length_nums in Hf, Hs. rewrite (Hf i Hi), (Hs i Hi).
  destruct (ema_running_finite qs fastPeriod i Hi) as [f Ef].
  destruct (ema_running_finite qs slowPeriod i Hi) as [s Es].
  split; [| split].
  - rewrite Ef, Es.
    destruct (fastPeriod - 1 <=? i), (slowPeriod - 1 <=? i); cbn;
      try (left; reflexivity). right. eauto.
  - intros Hw. rewrite Ef, Es.
    destruct (Nat.leb_spec (fastPeriod - 1) i), (Nat.leb_spec (slowPeriod - 1) i);
      cbn; try reflexivity. lia.
  - intros <-. rewrite Ef in *. inversion Es; subst s.
    destruct (fastPeriod - 1 <=? i); cbn; [ring | reflexivity].
Qed.

Lemma null_to_zero_nums (l : array) :
  Forall null_or_fin l ->
  null_to_zero <$> l = nums (fin_or_zero <$> l).
Proof.
  induction 1 as [| v l Hv _ IH]; [reflexivity |].
  cbn. f_equal; [| exact IH].
  destruct Hv as [-> | [q ->]]; reflexivity.
Qed.

Lemma Forall_aget (P : value -> Prop) (l : array) :
  (forall i, i < length l -> P (aget l i)) -> Forall P l.
Proof.
  intros H. apply Forall_lookup. intros i v Hv.
  rewrite <- (aget_lookup l i v Hv). apply H. apply lookup_lt_Some in Hv. exact Hv.
Qed.

(** The input of the signal EMA on finite closes: finite numbers [zs], zero
    where the MACD line is [null]. *)
Lemma signal_input_nums (qs : list Q) (fastPeriod slowPeriod : nat) :
  exists zs,
    null_to_zero <$> macd_line (nums qs) (calculateEMA (nums qs) fastPeriod)
                                (calculateEMA (nums qs) slowPeriod)
    = nums zs
    /\ length zs = length qs
    /\ (forall i z, zs !! i = Some z -> i < Nat.max fastPeriod slowPeriod - 1 ->
          z = 0%Q)
    /\ (fastPeriod = slowPeriod -> forall i z, zs !! i = Some z -> (z == 0)%Q).
Proof.
  set (m := macd_line (nums qs) (calculateEMA (nums qs) fastPeriod)
                      (calculateEMA (nums qs) slowPeriod)).
  assert (Hlen : length m = length qs).
  { unfold m, macd_line. rewrite length_imap. apply length_nums. }
  exists (fin_or_zero <$> m). split; [| split; [| split]].
  - apply null_to_zero_nums, Forall_aget. intros i Hi.
    apply (macd_line_fin qs fastPeriod slowPeriod i). lia.
  - rewrite length_fmap. exact Hlen.
  - intros i z Hz Hw. rewrite list_lookup_fmap in Hz.
    destruct (m !! i) as [v |] eqn:Hv; [| discriminate].
    inversion Hz; subst z. rewrite <- (aget_lookup m i v Hv).
    assert (Hi : i < length qs) by (apply lookup_lt_Some in Hv; lia).
    destruct (macd_line_fin qs fastPeriod slowPeriod i Hi) as [_ [Hnull _]].
    fold m in Hnull. rewrite (Hnull Hw). reflexivity.
  - intros Heq i z Hz. rewrite list_lookup_fmap in Hz.
    destruct (m !! i) as [v |] eqn:Hv; [| discriminate].
    inversion Hz; subst z. rewrite <- (aget_lookup m i v Hv).
    assert (Hi : i < length qs) by (apply lookup_lt_Some in Hv; lia).
    destruct (macd_line_fin qs fastPeriod slowPeriod i Hi) as [_ [_ Hz0]].
    apply Hz0, Heq.
Qed.

(** X10 -- On finite numbers [signalLine] has the length of the input and
    is [null] exactly before index [signalPeriod - 1], whatever the MACD
    periods; at an index where it is defined while [macdLine] is still
    [null] it is 0, the EMA of the zeros that replace the [null]s. *)
Theorem signalLine_warmup (qs : list Q) (fastPeriod slowPeriod signalPeriod : nat) :
  length (snd (calculateMACD (nums qs) fastPeriod slowPeriod signalPeriod))
  = length qs
  /\ forall i, i < length qs ->
       (aget (snd (calculateMACD (nums qs) fastPeriod slowPeriod signalPeriod)) i
        = VNull
        <-> i < signalPeriod - 1)
       /\ (signalPeriod - 1 <= i -> i < Nat.max fastPeriod slowPeriod - 1 ->
           exists r,
             aget (snd (calculateMACD (nums qs) fastPeriod slowPeriod signalPeriod)) i
             = VNum (Fin r)
             /\ (r == 0)%Q).
Proof.
  unfold calculateMACD. cbn [snd].
  destruct (signal_input_nums qs fastPeriod slowPeriod)
    as [zs [-> [Hlen [Hzero _]]]].
  destruct (calculateEMA_slots (nums zs) signalPeriod) as [Hl Hs].
  rewrite length_nums, Hlen in Hl, Hs.
  split; [exact Hl |].
  intros i Hi. rewrite (Hs i Hi). split.
  - destruct (ema_running_finite zs signalPeriod i) as [r ->]; [lia |].
    destruct (Nat.leb_spec (signalPeriod - 1) i); split; intros Hx;
      try discriminate; try reflexivity; lia.
  - intros Hsig Hw. nat_test_true (signalPeriod - 1 <=? i).
    apply (ema_running_fin_ind (fun r => (r == 0)%Q) zs signalPeriod).
    + intros q r Hq Hr. rewrite Hq, Hr. ring.
    + lia.
    + intros j z Hj Hz. rewrite (Hzero j z Hz) by lia. reflexivity.
Qed.

(** ** The trading loop: what every run satisfies *)

(** The invariant rule of the trading loop over the whole series. *)
Lemma simulate_invariant (P : nat -> sim_state -> Prop)
    (data : list PricePoint) (params : Params) :
  P 1 sim_init ->
  (forall i st, 1 <= i < length data -> P i st ->
     P (i + 1) (sim_body data params (indicators data params) st i)) ->
  P (Nat.max 1 (length data)) (simulate data params).
Proof.
  intros Hinit Hstep. unfold simulate, sim_before, range.
  destruct (Nat.le_gt_cases 1 (length data)) as [H | H].
  - rewrite Nat.max_r by exact H.
    replace (length data) with (1 + (length data - 1)) at 1 by lia.
    apply (for_loop_invariant _ P 1 (length data - 1)); [exact Hinit |].
    intros i st Hi. apply Hstep. lia.
  - rewrite Nat.max_l by lia.
    replace (length data - 1) with 0 by lia. exact Hinit.
Qed.

Lemma simulate_rules_inv (data : list PricePoint) (params : Params) :
  rules_inv data params (indicators data params) (simulate data params).
Proof.
  apply (simulate_invariant
           (fun _ st => rules_inv data params (indicators data params) st)).
  - split; [constructor | discriminate].
  - intros i st Hi [Hspans Hopen]. unfold sim_body.
    destruct (inTrade st) eqn:Hin; cbn [negb].
    + destruct (sellSignal (indicators data params) i || (i =? length data - 1))
        eqn:Hexit;
        [| split; [exact Hspans | intros _; apply Hopen; reflexivity]].
      destruct (Hopen eq_refl) as [He Hbuy].
      split; cbn; [| discriminate].
      apply Forall_app. split; [exact Hspans |].
      constructor; [| constructor].
      split; [exact He |]. split; [exact Hbuy |]. cbn [snd].
      apply orb_true_iff in Hexit. destruct Hexit as [Hs | Hl];
        [left; exact Hs | right; apply Nat.eqb_eq, Hl].
    + destruct (buySignal (indicators data params) (rsiOverbought params) i)
        eqn:Hbuy.
      * split; cbn; [exact Hspans |]. intros _. split; [lia | exact Hbuy].
      * split; [exact Hspans |]. rewrite Hin. discriminate.
Qed.

(** X11 -- Every trade of a run was entered at an index [e >= 1] where the
    buy rule held and left at an index where the sell rule held or at the
    last index of the series. *)
Theorem trades_follow_the_rules (data : list PricePoint) (params : Params) :
  length (spans (simulate data params)) = length (trades (simulate data params))
  /\ Forall (span_by_rules data params (indicators data params))
            (spans (simulate data params)).
Proof.
  split.
  - destruct (simulate_inv data params) as [_ _ _ H4].
    apply (Forall2_length _ _ _ H4).
  - apply (simulate_rules_inv data params).
Qed.

(** X12 -- A run emits at most [(length data - 1) / 2] trades: a trade
    takes two of the indices [1 .. length data - 1]. *)
Theorem trade_count_bound (data : list PricePoint) (params : Params) :
  2 * totalTrades (runBacktest data params) <= length data - 1.
Proof.
  unfold runBacktest. cbn [totalTrades metrics].
  assert (H : 2 * length (trades (simulate data params))
              + (if inTrade (simulate data params) then 1 else 0) + 1
              <= Nat.max 1 (length data)).
  { apply (simulate_invariant
             (fun i st => 2 * length (trades st)
                          + (if inTrade st then 1 else 0) + 1 <= i)).
    - cbn. lia.
    - intros i st Hi Hst. unfold sim_body.
      destruct (inTrade st) eqn:Hin; cbn [negb].
      + destruct (sellSignal _ i || (i =? length data - 1)).
        * cbn. rewrite length_app. cbn. lia.
        * rewrite Hin. lia.
      + destruct (buySignal _ _ i).
        * cbn. lia.
        * rewrite Hin. lia. }
  destruct (inTrade (simulate data params)); lia.
Qed.

(** X13 -- A run ends with a position open only when that position was
    entered at the last index itself: the series has at least two rows, no
    position was open on reaching the last index, and the buy rule held
    there.  No trade is recorded for it. *)
Theorem open_at_end_entered_at_last_bar (data : list PricePoint) (params : Params) :
  inTrade (simulate data params) = true ->
  2 <= length data
  /\ inTrade (sim_before data params (length data - 1)) = false
  /\ buySignal (indicators data params) (rsiOverbought params) (length data - 1)
     = true
  /\ cur_entryIdx (simulate data params) = length data - 1
  /\ trades (simulate data params)
     = trades (sim_before data params (length data - 1)).
Proof.
  intros Hopen.
  destruct (Nat.le_gt_cases (length data) 1) as [Hshort | Hlong].
  - unfold simulate in Hopen. rewrite sim_before_start in Hopen by exact Hshort.
    discriminate.
  - assert (Hsim : simulate data params
                   = sim_body data params (indicators data params)
                       (sim_before data params (length data - 1))
                       (length data - 1)).
    { unfold simulate. rewrite <- sim_before_step by lia. f_equal. lia. }
    rewrite Hsim in *. unfold sim_body in *.
    destruct (inTrade (sim_before data params (length data - 1))) eqn:Hin;
      cbn [negb] in *.
    + rewrite Nat.eqb_refl, orb_true_r in Hopen. discriminate.
    + destruct (buySignal _ _ (length data - 1)) eqn:Hbuy.
      * cbn. repeat split; (reflexivity || lia).
      * rewrite Hin in Hopen. discriminate.
Qed.

Lemma open_at_end_entered_at_last_bar_witness :
  inTrade (simulate (series [10; 9; 11]%Q) long_signal_params) = true
  /\ cur_entryIdx (simulate (series [10; 9; 11]%Q) long_signal_params)
     = length (series [10; 9; 11]%Q) - 1.
Proof.
  assert (H : inTrade (simulate (series [10; 9; 11]%Q) long_signal_params) = true)
    by (vm_compute; reflexivity).
  destruct (open_at_end_entered_at_last_bar _ _ H) as [_ [_ [_ [Hidx _]]]].
  split; [exact H | exact Hidx].
Defined.

(** ** No entry during the MACD and RSI warm-ups *)

Lemma closes_numbers (data : list PricePoint) (params : Params) :
  closes (indicators data params) = VNum <$> (close <$> data).
Proof. rewrite closes_indicators, <- list_fmap_compose. reflexivity. Qed.

Lemma macdLine_indicators (data : list PricePoint) (params : Params) :
  macdLine (indicators data params)
  = macd_line (VNum <$> (close <$> data))
      (calculateEMA (VNum <$> (close <$> data)) (macdFast params))
      (calculateEMA (VNum <$> (close <$> data)) (macdSlow params)).
Proof.
  change (macdLine (indicators data params))
    with (macd_line (closes (indicators data params))
            (calculateEMA (closes (indicators data params)) (macdFast params))
            (calculateEMA (closes (indicators data params)) (macdSlow params))).
  rewrite closes_numbers. reflexivity.
Qed.

Lemma rsi_indicators (data : list PricePoint) (params : Params) :
  rsi (indicators data params)
  = calculateRSI (VNum <$> (close <$> data)) (rsiPeriod params).
Proof.
  change (rsi (indicators data params))
    with (calculateRSI (closes (indicators data params)) (rsiPeriod params)).
  rewrite closes_numbers. reflexivity.
Qed.

(** Inside the series the RSI slot is [null] before index [rsiPeriod],
    whether the series is longer than the period or not. *)
Lemma rsi_null_before_period (values : array) (period i : nat) :
  i < length values -> i < period ->
  aget (calculateRSI values period) i = VNull.
Proof.
  intros Hi Hip. destruct (Nat.lt_ge_cases period (length values)) as [Hl | Hl].
  - destruct (calculateRSI_slots values period Hl) as [_ Hs].
    rewrite (Hs i Hi). nat_test_false (period <=? i). reflexivity.
  - apply calculateRSI_short_null; lia.
Qed.

(** Where the buy rule holds, the MACD and RSI warm-ups are over. *)
Lemma buySignal_after_warmup (data : list PricePoint) (params : Params) (i : nat) :
  1 <= i -> i < length data ->
  buySignal (indicators data params) (rsiOverbought params) i = true ->
  Nat.max (macdFast params) (macdSlow params) <= i /\ rsiPeriod params <= i.
Proof.
  intros Hi1 Hi2 Hbuy. unfold buySignal in Hbuy.
  repeat (apply andb_true_iff in Hbuy; destruct Hbuy as [Hbuy ?]).
  split.
  - destruct (Nat.le_gt_cases (Nat.max (macdFast params) (macdSlow params)) i)
      as [Hle | Hgt]; [exact Hle | exfalso].
    assert (Hnull : aget (macdLine (indicators data params)) (i - 1) = VNull).
    { rewrite macdLine_indicators. apply aget_macd_line_null.
      - rewrite length_fmap. lia.
      - lia. }
    match goal with
    | H : negb (is_null (aget (macdLine _) (i - 1))) = true |- _ =>
        rewrite Hnull in H; discriminate H
    end.
  - destruct (Nat.le_gt_cases (rsiPeriod params) i) as [Hle | Hgt];
      [exact Hle | exfalso].
    assert (Hnull : aget (rsi (indicators data params)) i = VNull).
    { rewrite rsi_indicators. apply rsi_null_before_period.
      - rewrite !length_fmap. exact Hi2.
      - exact Hgt. }
    match goal with
    | H : negb (is_null (aget (rsi _) i)) = true |- _ =>
        rewrite Hnull in H; discriminate H
    end.
Qed.

Lemma spans_after_warmup (data : list PricePoint) (params : Params) :
  Forall (fun sp =>
            Nat.max (macdFast params) (macdSlow params) <= fst sp
            /\ rsiPeriod params <= fst sp
            /\ fst sp < snd sp /\ snd sp < length data)
         (spans (simulate data params)).
Proof.
  destruct (simulate_rules_inv data params) as [Hrules _].
  destruct (simulate_inv data params) as [Hspan _ _ _].
  apply Forall_lookup. intros k [e x] Hk.
  rewrite Forall_lookup in Hrules.
  destruct (Hrules k (e, x) Hk) as [He [Hbuy _]]. cbn [fst snd] in *.
  destruct (Hspan k e x Hk) as [Hex Hx].
  assert (Hxn : x < length data) by lia.
  destruct (buySignal_after_warmup data params e He) as [Hm Hr];
    [lia | exact Hbuy |].
  auto.
Qed.

(** X14 -- No trade is entered during the warm-up of the MACD line or of
    the RSI: every trade's entry index is at least
    [max macdFast macdSlow] and at least [rsiPeriod]. *)
Theorem no_entry_during_macd_rsi_warmup (data : list PricePoint) (params : Params) :
  length (spans (simulate data params)) = length (trades (simulate data params))
  /\ Forall (fun sp =>
               Nat.max (macdFast params) (macdSlow params) <= fst sp
               /\ rsiPeriod params <= fst sp)
            (spans (simulate data params)).
Proof.
  split.
  - destruct (simulate_inv data params) as [_ _ _ H4].
    apply (Forall2_length _ _ _ H4).
  - eapply Forall_impl; [apply spans_after_warmup |].
    intros sp [H1 [H2 _]]. auto.
Qed.

(** X15 -- A series with fewer than
    [max (max macdFast macdSlow) rsiPeriod + 2] rows gives a run without
    trades: [totalTrades] and [winRate] are 0 and [profitFactor] is the
    infinite sentinel. *)
Theorem too_few_rows_no_trades (data : list PricePoint) (params : Params) :
  length data
  < Nat.max (Nat.max (macdFast params) (macdSlow params)) (rsiPeriod params) + 2 ->
  res_trades (runBacktest data params) = []
  /\ totalTrades (runBacktest data params) = 0
  /\ winRate (runBacktest data params) = Fin 0
  /\ profitFactor (runBacktest data params) = PInf.
Proof.
  intros Hshort.
  assert (Hnil : trades (simulate data params) = []).
  { destruct (simulate_inv data params) as [_ _ _ H4].
    pose proof (spans_after_warmup data params) as Hsp.
    destruct (spans (simulate data params)) as [| [e x] sps].
    - inversion H4. reflexivity.
    - inversion Hsp as [| ? ? [H1 [H2 [H3 H5]]] _]. cbn [fst snd] in *. lia. }
  unfold runBacktest. rewrite Hnil. repeat split; reflexivity.
Qed.

Lemma too_few_rows_no_trades_witness :
  length (series [10; 11; 12; 11; 10]%Q)
  < Nat.max (Nat.max (macdFast example_params) (macdSlow example_params))
            (rsiPeriod example_params) + 2
  /\ res_trades (runBacktest (series [10; 11; 12; 11; 10]%Q) example_params) = [].
Proof.
  assert (H : length (series [10; 11; 12; 11; 10]%Q)
              < Nat.max (Nat.max (macdFast example_params) (macdSlow example_params))
                        (rsiPeriod example_params) + 2) by (simpl; lia).
  destruct (too_few_rows_no_trades _ _ H) as [Hnil _].
  split; [exact H | exact Hnil].
Defined.

(** ** Parameters under which a run never trades *)

(** A run in which the buy rule holds at no index of the loop leaves the
    locals as they started. *)
Lemma never_buys (data : list PricePoint) (params : Params) :
  (forall i, 1 <= i < length data ->
     buySignal (indicators data params) (rsiOverbought params) i = false) ->
  simulate data params = sim_init.
Proof.
  intros Hno.
  apply (simulate_invariant (fun _ st => st = sim_init)); [reflexivity |].
  intros i st Hi ->. unfold sim_body. cbn [inTrade sim_init negb].
  rewrite (Hno i Hi). reflexivity.
Qed.

Lemma metrics_nil :
  metrics [] = {| res_trades := []; winRate := Fin 0; totalTrades := 0;
                  profitFactor := PInf |}.
Proof. reflexivity. Qed.

Lemma nlt_NaN_r (a : number) : nlt a NaN = false.
Proof. destruct a; reflexivity. Qed.

(** X16 -- With [rsiOverbought] being [NaN] (what [parseFloat] gives for an
    empty field) the comparison [rsi[i] < rsiOverbought] is false at every
    index: the run makes no trade, whatever the series. *)
Theorem NaN_threshold_never_trades (data : list PricePoint) (params : Params) :
  rsiOverbought params = NaN ->
  simulate data params = sim_init
  /\ runBacktest data params
     = {| res_trades := []; winRate := Fin 0; totalTrades := 0;
          profitFactor := PInf |}.
Proof.
  intros HNaN.
  assert (Hsim : simulate data params = sim_init).
  { apply never_buys. intros i _. unfold buySignal, js_lt.
    rewrite HNaN. cbn [ToNumber]. rewrite nlt_NaN_r. apply andb_false_r. }
  split; [exact Hsim |]. unfold runBacktest. rewrite Hsim. reflexivity.
Qed.

Lemma NaN_threshold_never_trades_witness :
  rsiOverbought
    {| maPeriod := 3; rsiPeriod := 3; rsiOverbought := NaN;
       macdFast := 2; macdSlow := 4; macdSignal := 2 |} = NaN
  /\ simulate example_series
       {| maPeriod := 3; rsiPeriod := 3; rsiOverbought := NaN;
          macdFast := 2; macdSlow := 4; macdSignal := 2 |} = sim_init.
Proof.
  split; [reflexivity |].
  apply (NaN_threshold_never_trades example_series
           {| maPeriod := 3; rsiPeriod := 3; rsiOverbought := NaN;
              macdFast := 2; macdSlow := 4; macdSignal := 2 |}).
  reflexivity.
Defined.







(** * Reading the CSV text *)

(** ** Row objects *)

Lemma obj_get_set_eq (obj : rowobj) (key : jsstring) (f : field) :
  obj_get (obj_set obj key f) key = Some f.
Proof.
  induction obj as [| [k f0] obj IH]; cbn.
  - rewrite bool_decide_eq_true_2; reflexivity.
  - destruct (bool_decide (k = key)) eqn:E; cbn; rewrite E; [reflexivity | exact IH].
Qed.

Lemma obj_get_set_ne (obj : rowobj) (key key' : jsstring) (f : field) :
  key <> key' -> obj_get (obj_set obj key f) key' = obj_get obj key'.
Proof.
  intros Hne. induction obj as [| [k f0] obj IH]; cbn.
  - rewrite bool_decide_eq_false_2; [reflexivity | exact Hne].
  - destruct (bool_decide (k = key)) eqn:E; cbn.
    + apply bool_decide_eq_true_1 in E. subst k.
      rewrite !bool_decide_eq_false_2 by exact Hne. reflexivity.
    + destruct (bool_decide (k = key')); [reflexivity | exact IH].
Qed.

Lemma is_date_key_false (key : jsstring) :
  is_date_key key = false -> key <> key_date.
Proof.
  unfold is_date_key. intros H ->.
  rewrite bool_decide_eq_true_2 in H by reflexivity. discriminate H.
Qed.

Lemma key_date_is_date_key : is_date_key key_date = true.
Proof. reflexivity. Qed.

(** ** Every row has a date *)

Lemma csv_cell_date_is_Date (bi : Builtins) (header row : list jsstring)
    (obj : rowobj) (j : nat) :
  date_is_Date obj -> date_is_Date (csv_cell bi header row obj j).
Proof.
  intros Hobj. unfold csv_cell.
  destruct (is_date_key (default [] (header !! j))) eqn:Hk.
  - intros f Hf. rewrite obj_get_set_eq in Hf. inversion Hf. eauto.
  - destruct (bool_decide (default [] (header !! j) = key_proto)); [exact Hobj |].
    intros f Hf. rewrite obj_get_set_ne in Hf by (apply is_date_key_false, Hk).
    apply Hobj, Hf.
Qed.

Lemma csv_object_has_date (bi : Builtins) (header row : list jsstring) (i : nat) :
  has_date (csv_object bi header row i).
Proof.
  unfold csv_object, range.
  assert (Hinv : date_is_Date
                   (foldl (csv_cell bi header row) [] (seq 0 (length header - 0)))).
  { apply (for_loop_invariant (csv_cell bi header row) (fun _ => date_is_Date) 0).
    - intros f Hf. discriminate Hf.
    - intros j obj _. apply csv_cell_date_is_Date. }
  destruct (obj_get _ key_date) as [f |] eqn:Hget.
  - destruct (Hinv f Hget) as [d ->]. cbn. exists d. exact Hget.
  - cbn. eexists. apply obj_get_set_eq.
Qed.

(** X20 -- Every row object [parseCSV] returns has a [date] property that
    is a [Date]: the one parsed from a date, time or timestamp column, or
    the fallback built from the line index. *)
Theorem parseCSV_rows_have_date (bi : Builtins) (text : jsstring) :
  Forall has_date (parseCSV bi text).
Proof.
  unfold parseCSV, range.
  apply (for_loop_invariant
           (csv_line bi (csv_header bi text) (csv_lines text))
           (fun _ data => Forall has_date data) 1).
  - constructor.
  - intros i data _ Hdata. unfold csv_line.
    destruct (negb _); [exact Hdata |].
    apply Forall_app. split; [exact Hdata |].
    constructor; [apply csv_object_has_date | constructor].
Qed.

(** ** Which lines become rows *)

Lemma split_lines_from_nonempty (cur s : jsstring) :
  0 < length (split_lines_from cur s).
Proof.
  revert cur. induction s as [| c r IH]; intros cur; cbn; [lia |].
  destruct (c =? 10)%N; [cbn; lia |].
  destruct (c =? 13)%N; [| apply IH].
  destruct r as [| d r']; [cbn; lia |].
  destruct (d =? 10)%N; [cbn; lia | apply IH].
Qed.

Lemma csv_lines_nonempty (text : jsstring) : 0 < length (csv_lines text).
Proof. apply split_lines_from_nonempty. Qed.

(** X21 -- [parseCSV] returns one row for each line after the first that
    has as many comma-separated fields as the header and skips the others:
    the number of rows is the number of such lines, at most the number of
    lines minus one. *)
Theorem parseCSV_row_count (bi : Builtins) (text : jsstring) :
  length (parseCSV bi text)
  = length (List.filter (well_formed (csv_header bi text))
                        (drop 1 (csv_lines text)))
  /\ length (parseCSV bi text) <= length (csv_lines text) - 1.
Proof.
  assert (Hcount : length (parseCSV bi text)
                   = length (List.filter (well_formed (csv_header bi text))
                                         (drop 1 (csv_lines text)))).
  { pose proof (csv_lines_nonempty text) as Hne.
    unfold parseCSV, range.
    assert (Hinv : length (foldl (csv_line bi (csv_header bi text) (csv_lines text))
                                 [] (seq 1 (length (csv_lines text) - 1)))
                   = length (List.filter (well_formed (csv_header bi text))
                               (take (1 + (length (csv_lines text) - 1) - 1)
                                     (drop 1 (csv_lines text))))).
    { apply (for_loop_invariant
               (csv_line bi (csv_header bi text) (csv_lines text))
               (fun i data =>
                  length data
                  = length (List.filter (well_formed (csv_header bi text))
                              (take (i - 1) (drop 1 (csv_lines text)))))
               1).
      - reflexivity.
      - intros i data Hi Hdata.
        destruct (lookup_lt_is_Some_2 (csv_lines text) i) as [l Hl]; [lia |].
        assert (Hd : drop 1 (csv_lines text) !! (i - 1) = Some l).
        { rewrite lookup_drop. replace (1 + (i - 1)) with i by lia. exact Hl. }
        replace (i + 1 - 1) with (S (i - 1)) by lia.
        rewrite (take_S_r _ _ _ Hd), List.filter_app, length_app, <- Hdata.
        unfold csv_line. rewrite Hl. change (default [] (Some l)) with l.
        cbn [List.filter]. unfold well_formed.
        destruct (length (split_comma l) =? length (csv_header bi text));
          cbn [negb]; [rewrite length_app |]; cbn [length]; lia. }
    rewrite Hinv. rewrite take_ge; [reflexivity |].
    rewrite length_drop. lia. }
  split; [exact Hcount |].
  rewrite Hcount.
  pose proof (List.filter_length_le (well_formed (csv_header bi text))
                (drop 1 (csv_lines text))) as Hle.
  rewrite length_drop in Hle. exact Hle.
Qed.

(** ** A text of one line *)

Lemma split_lines_from_no_LF (cur s : jsstring) :
  Forall (fun c => c <> 10%N) s -> split_lines_from cur s = [cur ++ s].
Proof.
  intros Hs. revert cur. induction Hs as [| c r Hc Hr IH]; intros cur.
  - cbn. rewrite app_nil_r. reflexivity.
  - cbn [split_lines_from].
    replace (c =? 10)%N with false by (symmetry; apply N.eqb_neq, Hc).
    assert (Hrec : split_lines_from (cur ++ [c]) r = [cur ++ c :: r]).
    { rewrite IH, <- app_assoc. reflexivity. }
    destruct (c =? 13)%N; [| exact Hrec].
    destruct Hr as [| d r' Hd Hr']; [exact Hrec |].
    replace (d =? 10)%N with false by (symmetry; apply N.eqb_neq, Hd).
    exact Hrec.
Qed.

Lemma trim_start_Forall (P : N -> Prop) (s : jsstring) :
  Forall P s -> Forall P (trim_start s).
Proof.
  induction 1 as [| c r Hc Hr IH]; cbn; [constructor |].
  destruct (is_whitespace c); [exact IH | constructor; assumption].
Qed.

Lemma trim_Forall (P : N -> Prop) (s : jsstring) :
  Forall P s -> Forall P (trim s).
Proof.
  intros H. unfold trim.
  apply List.Forall_rev, trim_start_Forall, List.Forall_rev, trim_start_Forall, H.
Qed.

(** X22 -- A text without a line feed (an empty text, or a header line
    alone) has no data line: [parseCSV] returns the empty array. *)
Theorem parseCSV_single_line (bi : Builtins) (text : jsstring) :
  Forall (fun c => c <> 10%N) text -> parseCSV bi text = [].
Proof.
  intros Hno. unfold parseCSV, csv_lines, split_lines.
  rewrite (split_lines_from_no_LF [] (trim text)) by (apply trim_Forall, Hno).
  reflexivity.
Qed.

Lemma parseCSV_single_line_witness :
  Forall (fun c => c <> 10%N) [99; 108; 111; 115; 101]%N
  /\ parseCSV plain_builtins [99; 108; 111; 115; 101]%N = [].
Proof.
  assert (H : Forall (fun c => c <> 10%N) [99; 108; 111; 115; 101]%N)
    by (repeat constructor; discriminate).
  split; [exact H |].
  apply (parseCSV_single_line plain_builtins [99; 108; 111; 115; 101]%N H).
Defined.

(** ** The fallback date *)

Lemma csv_object_fallback (bi : Builtins) (header row : list jsstring) (i : nat) :
  Forall (fun key => is_date_key key = false) header ->
  obj_get (csv_object bi header row i) key_date = Some (FDate (DateOfNumber i)).
Proof.
  intros Hhdr. unfold csv_object, range.
  assert (Hinv : obj_get (foldl (csv_cell bi header row) []
                                (seq 0 (length header - 0))) key_date = None).
  { apply (for_loop_invariant (csv_cell bi header row)
             (fun _ obj => obj_get obj key_date = None) 0).
    - reflexivity.
    - intros j obj Hj Hobj.
      destruct (lookup_lt_is_Some_2 header j) as [key Hkey]; [lia |].
      rewrite Forall_lookup in Hhdr. pose proof (Hhdr j key Hkey) as Hnd.
      unfold csv_cell. rewrite Hkey. change (default [] (Some key)) with key.
      rewrite Hnd. destruct (bool_decide (key = key_proto)); [exact Hobj |].
      rewrite obj_get_set_ne by (apply is_date_key_false, Hnd). exact Hobj. }
  rewrite Hinv. cbn [field_truthy negb]. apply obj_get_set_eq.
Qed.

(** X23 -- When no header cell is [date], [time] or [timestamp], the
    [date] of every row is the fallback [new Date(i)], [i] being the index
    of a line after the header. *)
Theorem parseCSV_fallback_date (bi : Builtins) (text : jsstring) :
  Forall (fun key => is_date_key key = false) (csv_header bi text) ->
  Forall (has_fallback_date (length (csv_lines text))) (parseCSV bi text).
Proof.
  intros Hhdr. unfold parseCSV, range.
  apply (for_loop_invariant
           (csv_line bi (csv_header bi text) (csv_lines text))
           (fun _ data =>
              Forall (has_fallback_date (length (csv_lines text))) data) 1).
  - constructor.
  - intros i data Hi Hdata. unfold csv_line.
    destruct (negb _); [exact Hdata |].
    apply Forall_app. split; [exact Hdata |].
    constructor; [| constructor].
    exists i. split; [lia |]. apply csv_object_fallback, Hhdr.
Qed.

Lemma parseCSV_fallback_date_witness :
  Forall (fun key => is_date_key key = false)
         (csv_header plain_builtins [99; 10; 53]%N)
  /\ Forall (has_fallback_date (length (csv_lines [99; 10; 53]%N)))
            (parseCSV plain_builtins [99; 10; 53]%N).
Proof.
  assert (H : Forall (fun key => is_date_key key = false)
                     (csv_header plain_builtins [99; 10; 53]%N))
    by (repeat constructor).
  split; [exact H |].
  apply (parseCSV_fallback_date plain_builtins [99; 10; 53]%N H).
Defined.

(** ** The numeric columns *)




(** ** The parsed date *)




(** * The program on doubles *)

(** ** Arrays of doubles *)

Lemma b64_aget_lookup (a : list Binary64.value) (i : nat) (v : Binary64.value) :
  a !! i = Some v -> Binary64.aget a i = v.
Proof. unfold Binary64.aget. intros ->. reflexivity. Qed.

Lemma b64_length_aset_in_range (a : list Binary64.value) (i : nat)
    (v : Binary64.value) :
  i < length a -> length (Binary64.aset a i v) = length a.
Proof.
  intros H. unfold Binary64.aset. nat_test_true (i <? length a).
  apply length_insert.
Qed.

Lemma b64_aget_aset_eq (a : list Binary64.value) (i : nat) (v : Binary64.value) :
  i < length a -> Binary64.aget (Binary64.aset a i v) i = v.
Proof.
  intros H. unfold Binary64.aset. nat_test_true (i <? length a).
  apply b64_aget_lookup, list_lookup_insert_eq, H.
Qed.

Lemma b64_aget_aset_ne (a : list Binary64.value) (i j : nat) (v : Binary64.value) :
  i < length a -> i <> j ->
  Binary64.aget (Binary64.aset a i v) j = Binary64.aget a j.
Proof.
  intros H Hne. unfold Binary64.aset. nat_test_true (i <? length a).
  unfold Binary64.aget. rewrite list_lookup_insert_ne by exact Hne. reflexivity.
Qed.

Lemma b64_aget_filled_null (n i : nat) :
  i < n -> Binary64.aget (Binary64.filled_null n) i = Binary64.VNull.
Proof. intros H. apply b64_aget_lookup, lookup_replicate_2, H. Qed.

Lemma b64_length_filled_null (n : nat) : length (Binary64.filled_null n) = n.
Proof. apply length_replicate. Qed.

Lemma b64_length_nums (xs : list PrimFloat.float) :
  length (Binary64.nums xs) = length xs.
Proof. apply length_fmap. Qed.

Lemma b64_aget_nums (xs : list PrimFloat.float) (i : nat) (x : PrimFloat.float) :
  xs !! i = Some x -> Binary64.aget (Binary64.nums xs) i = Binary64.VNum x.
Proof.
  intros H. apply b64_aget_lookup. unfold Binary64.nums.
  rewrite list_lookup_fmap, H. reflexivity.
Qed.

(** ** The running sum of [calculateSMA] on doubles *)

Lemma b64_sma_loop_step (values : list Binary64.value) (period j : nat) :
  Binary64.sma_loop values period (j + 1)
  = Binary64.sma_body values period (Binary64.sma_loop values period j) j.
Proof.
  unfold Binary64.sma_loop. rewrite range_snoc by lia. rewrite foldl_app.
  reflexivity.
Qed.

(** The running sum after the iteration for [j]. *)
Lemma b64_sma_sum_step (values : list Binary64.value) (period j : nat) :
  Binary64.sma_sum (Binary64.sma_loop values period (j + 1))
  = if period <=? j
    then PrimFloat.sub
           (PrimFloat.add (Binary64.sma_sum (Binary64.sma_loop values period j))
                          (Binary64.ToNumber (Binary64.aget values j)))
           (Binary64.ToNumber (Binary64.aget values (j - period)))
    else PrimFloat.add (Binary64.sma_sum (Binary64.sma_loop values period j))
                       (Binary64.ToNumber (Binary64.aget values j)).
Proof.
  rewrite b64_sma_loop_step. unfold Binary64.sma_body. cbn [Binary64.sma_sum].
  destruct (period <=? j); reflexivity.
Qed.

Lemma b64_sma_loop_slots (values : list Binary64.value) (period j : nat) :
  j <= length values ->
  length (Binary64.sma_result (Binary64.sma_loop values period j)) = length values
  /\ forall i, i < length values ->
       Binary64.aget (Binary64.sma_result (Binary64.sma_loop values period j)) i
       = if (i <? j) && (period - 1 <=? i)
         then Binary64.VNum
                (PrimFloat.div
                   (Binary64.sma_sum (Binary64.sma_loop values period (i + 1)))
                   (Binary64.of_nat period))
         else Binary64.VNull.
Proof.
  induction j as [| j IH]; intros Hj.
  - split; [apply b64_length_filled_null |].
    intros i Hi. apply b64_aget_filled_null, Hi.
  - destruct IH as [Hlen Hslots]; [lia |].
    replace (S j) with (j + 1) by lia.
    assert (Hout : Binary64.sma_result (Binary64.sma_loop values period (j + 1))
                   = if period - 1 <=? j
                     then Binary64.aset
                            (Binary64.sma_result (Binary64.sma_loop values period j)) j
                            (Binary64.VNum
                               (PrimFloat.div
                                  (Binary64.sma_sum
                                     (Binary64.sma_loop values period (j + 1)))
                                  (Binary64.of_nat period)))
                     else Binary64.sma_result (Binary64.sma_loop values period j)).
    { rewrite b64_sma_loop_step. reflexivity. }
    rewrite Hout. clear Hout. split.
    + destruct (period - 1 <=? j); [| exact Hlen].
      rewrite b64_length_aset_in_range; lia.
    + intros i Hi. specialize (Hslots i Hi).
      destruct (Nat.eq_dec i j) as [-> | Hne].
      * nat_test_true (j <? j + 1).
        nat_test_false (j <? j) in Hslots.
        cbn [andb] in *. destruct (period - 1 <=? j); [| exact Hslots].
        apply b64_aget_aset_eq. lia.
      * replace (i <? j + 1) with (i <? j).
        2:{ destruct (Nat.ltb_spec i j), (Nat.ltb_spec i (j + 1)); auto; lia. }
        destruct (period - 1 <=? j); [| exact Hslots].
        rewrite b64_aget_aset_ne by (auto; lia). exact Hslots.
Qed.

(** The output of [calculateSMA] on doubles, slot by slot. *)
Lemma b64_calculateSMA_slots (values : list Binary64.value) (period : nat) :
  length (Binary64.calculateSMA values period) = length values
  /\ forall i, i < length values ->
       Binary64.aget (Binary64.calculateSMA values period) i
       = if period - 1 <=? i
         then Binary64.VNum
                (PrimFloat.div
                   (Binary64.sma_sum (Binary64.sma_loop values period (i + 1)))
                   (Binary64.of_nat period))
         else Binary64.VNull.
Proof.
  unfold Binary64.calculateSMA.
  destruct (b64_sma_loop_slots values period (length values)) as [Hlen Hslots];
    [lia |].
  split; [exact Hlen |].
  intros i Hi. rewrite (Hslots i Hi). nat_test_true (i <? length values).
  reflexivity.
Qed.

(** ** Equal Numbers and the exact operations *)

Lemma num_eq_refl (a : number) : num_eq a a.
Proof. destruct a; simpl; auto. reflexivity. Qed.

Lemma num_eq_trans (a b c : number) : num_eq a b -> num_eq b c -> num_eq a c.
Proof.
  destruct a, b, c; simpl; auto; try contradiction.
  intros H1 H2. rewrite H1. exact H2.
Qed.

Lemma num_eqb_true (a b : number) : num_eqb a b = true -> num_eq a b.
Proof.
  destruct a, b; simpl; auto; try discriminate. apply Qeq_bool_eq.
Qed.

Lemma num_eq_Fin (a : number) (q : Q) :
  num_eq a (Fin q) -> exists r, a = Fin r /\ (r == q)%Q.
Proof. destruct a; simpl; try contradiction. eauto. Qed.

Lemma Qeq_bool_comp (x x' y y' : Q) :
  (x == x')%Q -> (y == y')%Q -> Qeq_bool x y = Qeq_bool x' y'.
Proof.
  intros Hx Hy. destruct (Qeq_bool x y) eqn:E, (Qeq_bool x' y') eqn:E';
    try reflexivity.
  - apply Qeq_bool_eq in E. apply Qeq_bool_neq in E'. exfalso. apply E'.
    rewrite <- Hx, <- Hy. exact E.
  - apply Qeq_bool_eq in E'. apply Qeq_bool_neq in E. exfalso. apply E.
    rewrite Hx, Hy. exact E'.
Qed.

Lemma Qle_bool_comp (x x' y y' : Q) :
  (x == x')%Q -> (y == y')%Q -> Qle_bool x y = Qle_bool x' y'.
Proof.
  intros Hx Hy. destruct (Qle_bool x y) eqn:E, (Qle_bool x' y') eqn:E';
    try reflexivity.
  - apply Qle_bool_iff in E. apply Qle_bool_false in E'. lra.
  - apply Qle_bool_iff in E'. apply Qle_bool_false in E. lra.
Qed.

Lemma Qltb_comp (x x' y y' : Q) :
  (x == x')%Q -> (y == y')%Q -> Qltb x y = Qltb x' y'.
Proof. intros Hx Hy. unfold Qltb. f_equal. apply Qle_bool_comp; assumption. Qed.

Lemma nneg_comp (a a' : number) : num_eq a a' -> num_eq (nneg a) (nneg a').
Proof.
  destruct a, a'; simpl; auto. intros H. rewrite H. reflexivity.
Qed.

Lemma nadd_comp (a a' b b' : number) :
  num_eq a a' -> num_eq b b' -> num_eq (nadd a b) (nadd a' b').
Proof.
  destruct a, a', b, b'; simpl; auto; try contradiction.
  intros H1 H2. rewrite H1, H2. reflexivity.
Qed.

Lemma nsub_comp (a a' b b' : number) :
  num_eq a a' -> num_eq b b' -> num_eq (nsub a b) (nsub a' b').
Proof. intros H1 H2. apply nadd_comp; [exact H1 | apply nneg_comp, H2]. Qed.

Lemma inf_signed_comp (x x' : Q) (pos : number) :
  (x == x')%Q -> inf_signed x pos = inf_signed x' pos.
Proof.
  intros H. unfold inf_signed.
  rewrite (Qeq_bool_comp x x' 0 0 H (Qeq_refl 0)).
  rewrite (Qltb_comp 0 0 x x' (Qeq_refl 0) H). reflexivity.
Qed.

Lemma nmul_comp (a a' b b' : number) :
  num_eq a a' -> num_eq b b' -> num_eq (nmul a b) (nmul a' b').
Proof.
  destruct a, a', b, b'; simpl; auto; try contradiction;
    intros H1 H2;
    try (rewrite H1, H2; reflexivity);
    try (rewrite (inf_signed_comp _ _ _ H1); apply num_eq_refl);
    try (rewrite (inf_signed_comp _ _ _ H2); apply num_eq_refl).
Qed.

Lemma ndiv_comp (a a' b b' : number) :
  num_eq a a' -> num_eq b b' -> num_eq (ndiv a b) (ndiv a' b').
Proof.
  destruct a as [x | | |], a' as [x' | | |], b as [y | | |], b' as [y' | | |];
    simpl; auto; try contradiction; intros H1 H2; try reflexivity.
  - rewrite (Qeq_bool_comp y y' 0 0 H2 (Qeq_refl 0)).
    destruct (Qeq_bool y' 0).
    + rewrite (inf_signed_comp _ _ _ H1). apply num_eq_refl.
    + simpl. rewrite H1, H2. reflexivity.
  - rewrite (Qltb_comp y y' 0 0 H2 (Qeq_refl 0)). apply num_eq_refl.
  - rewrite (Qltb_comp y y' 0 0 H2 (Qeq_refl 0)). apply num_eq_refl.
Qed.




(** An exact operation on doubles follows the operation on Numbers. *)
Lemma exact2_track
    (fop : PrimFloat.float -> PrimFloat.float -> PrimFloat.float)
    (nop : number -> number -> number) (a b : PrimFloat.float) (na nb : number) :
  (forall x x' y y', num_eq x x' -> num_eq y y' -> num_eq (nop x y) (nop x' y')) ->
  exact2 fop nop a b = true ->
  num_eq (fval a) na -> num_eq (fval b) nb ->
  num_eq (fval (fop a b)) (nop na nb).
Proof.
  intros Hcomp Hex Ha Hb. apply num_eqb_true in Hex.
  eapply num_eq_trans; [exact Hex |]. apply Hcomp; assumption.
Qed.

Lemma fval_finite_double (x : PrimFloat.float) :
  finite_double x = true -> fval x = Fin (fq x).
Proof. unfold finite_double, fq. destruct (fval x); try discriminate. reflexivity. Qed.

(** ** Doubles and their values *)

Lemma pow2_pos (e : Z) : (0 < pow2 e)%Q.
Proof.
  destruct e as [| p | p]; simpl.
  - reflexivity.
  - unfold Qlt. cbn [Qnum Qden inject_Z]. rewrite Z.pow_pos_fold.
    pose proof (Z.pow_pos_nonneg 2 (Z.pos p)). lia.
  - reflexivity.
Qed.

Lemma mant_pos (m : positive) (e : Z) : (0 < inject_Z (Zpos m) * pow2 e)%Q.
Proof.
  apply Qmult_lt_0_compat; [reflexivity | apply pow2_pos].
Qed.

Lemma mant_neg (m : positive) (e : Z) : (- inject_Z (Zpos m) * pow2 e < 0)%Q.
Proof. pose proof (mant_pos m e). lra. Qed.

Lemma Qltb_iff (a b : Q) : Qltb a b = true <-> (a < b)%Q.
Proof.
  unfold Qltb. rewrite negb_true_iff. split.
  - apply Qle_bool_false.
  - intros H. destruct (Qle_bool b a) eqn:E; [| reflexivity].
    apply Qle_bool_iff in E. lra.
Qed.

Lemma Qltb_lt (a b : Q) : (a < b)%Q -> Qltb a b = true.
Proof. apply Qltb_iff. Qed.

Lemma Qltb_ge (a b : Q) : (b <= a)%Q -> Qltb a b = false.
Proof. intros H. unfold Qltb. apply Qle_bool_iff in H. rewrite H. reflexivity. Qed.

Lemma Qeq_bool_false (a b : Q) : ~ (a == b)%Q -> Qeq_bool a b = false.
Proof.
  intros H. destruct (Qeq_bool a b) eqn:E; [| reflexivity].
  apply Qeq_bool_eq in E. contradiction.
Qed.



Section DoubleFacts.

Import PrimFloat.

Lemma Prim2SF_zero : FloatOps.Prim2SF 0%float = SpecFloat.S754_zero false.
Proof. reflexivity. Qed.

(** Comparisons of a double with zero are those of its value. *)
Lemma b64_eqb_zero (x : PrimFloat.float) :
  PrimFloat.eqb x 0%float = neqb (fval x) (Fin 0).
Proof.
  rewrite FloatAxioms.eqb_spec, Prim2SF_zero. unfold fval.
  destruct (FloatOps.Prim2SF x) as [s | s | | s m e]; try destruct s; try reflexivity;
    cbn [SpecFloat.SFeqb SpecFloat.SFcompare neqb]; symmetry; apply Qeq_bool_false.
  - pose proof (mant_neg m e). lra.
  - pose proof (mant_pos m e). lra.
Qed.

Lemma b64_ltb_zero_l (x : PrimFloat.float) :
  PrimFloat.ltb 0%float x = nlt (Fin 0) (fval x).
Proof.
  rewrite FloatAxioms.ltb_spec, Prim2SF_zero. unfold fval.
  destruct (FloatOps.Prim2SF x) as [s | s | | s m e]; try destruct s; try reflexivity;
    cbn [SpecFloat.SFltb SpecFloat.SFcompare nlt]; symmetry.
  - apply Qltb_ge. pose proof (mant_neg m e). lra.
  - apply Qltb_lt, mant_pos.
Qed.

Lemma b64_ltb_zero_r (x : PrimFloat.float) :
  PrimFloat.ltb x 0%float = nlt (fval x) (Fin 0).
Proof.
  rewrite FloatAxioms.ltb_spec, Prim2SF_zero. unfold fval.
  destruct (FloatOps.Prim2SF x) as [s | s | | s m e]; try destruct s; try reflexivity;
    cbn [SpecFloat.SFltb SpecFloat.SFcompare nlt]; symmetry.
  - apply Qltb_lt, mant_neg.
  - apply Qltb_ge. pose proof (mant_pos m e). lra.
Qed.



Lemma b64_abs (x : PrimFloat.float) :
  num_eq (fval (PrimFloat.abs x)) (nabs (fval x)).
Proof.
  unfold fval. rewrite FloatAxioms.abs_spec.
  destruct (FloatOps.Prim2SF x) as [s | s | | s m e]; try destruct s;
    cbn [SpecFloat.SFabs nabs num_eq]; auto; try reflexivity.
  - pose proof (mant_neg m e). rewrite Qabs_neg by lra. ring.
  - pose proof (mant_pos m e). rewrite Qabs_pos by lra. reflexivity.
Qed.

Lemma b64_nan_reflexive (x : PrimFloat.float) :
  PrimFloat.eqb x x = match fval x with NaN => false | _ => true end.
Proof.
  rewrite FloatAxioms.eqb_spec. unfold fval.
  destruct (FloatOps.Prim2SF x) as [s | s | | s m e]; try destruct s; try reflexivity;
  cbn [SpecFloat.SFeqb SpecFloat.SFcompare]; rewrite Z.compare_refl, Pos.compare_cont_refl; reflexivity.
Qed.

Lemma b64_truthy (x : PrimFloat.float) : Binary64.truthy x = ntruthy (fval x).
Proof.
  unfold Binary64.truthy.
  rewrite b64_eqb_zero, b64_nan_reflexive.
  destruct (fval x); simpl; try reflexivity. apply andb_true_r.
Qed.


Lemma fval_100 : num_eq (fval 100%float) (Fin 100).
Proof. apply num_eqb_true. vm_compute. reflexivity. Qed.

End DoubleFacts.

(** ** [calculateSMA] when no operation rounds *)

Lemma forallb_seq_nth (f : nat -> bool) (n j : nat) :
  forallb f (seq 0 n) = true -> j < n -> f j = true.
Proof.
  intros H Hj. rewrite forallb_forall in H. apply H. apply in_seq. lia.
Qed.

Lemma forallb_lookup {A} (f : A -> bool) (l : list A) (i : nat) (x : A) :
  forallb f l = true -> l !! i = Some x -> f x = true.
Proof.
  intros H Hx. rewrite forallb_forall in H. apply H.
  apply list_elem_of_In. eapply list_elem_of_lookup_2. exact Hx.
Qed.

Lemma sma_sums_exact_parts (xs : list PrimFloat.float) (period : nat) :
  sma_sums_exact xs period = true ->
  forallb finite_double xs = true
  /\ forall j, j < length xs -> sma_sum_step_exact xs period j = true.
Proof.
  unfold sma_sums_exact. intros H. apply andb_prop in H as [H1 H2].
  split; [exact H1 |].
  intros j Hj. apply (forallb_seq_nth _ _ _ H2 Hj).
Qed.

Lemma sma_exact_parts (xs : list PrimFloat.float) (period : nat) :
  sma_exact xs period = true ->
  sma_sums_exact xs period = true
  /\ num_eq (fval (Binary64.of_nat period)) (of_nat period)
  /\ forall j, j < length xs -> sma_div_step_exact xs period j = true.
Proof.
  unfold sma_exact. intros H.
  apply andb_prop in H as [H H3]. apply andb_prop in H as [H1 H2].
  split; [exact H1 |]. split; [apply num_eqb_true, H2 |].
  intros j Hj. apply (forallb_seq_nth _ _ _ H3 Hj).
Qed.

(** With exact additions and subtractions the running sum is the sum of the
    window. *)
Lemma b64_sma_sum_exact (xs : list PrimFloat.float) (period j : nat) :
  0 < period -> sma_sums_exact xs period = true -> j <= length xs ->
  num_eq (fval (Binary64.sma_sum (Binary64.sma_loop (Binary64.nums xs) period j)))
         (Fin (qsum (trailing (fq <$> xs) period j))).
Proof.
  intros Hp Hex. destruct (sma_sums_exact_parts xs period Hex) as [Hfin Hsteps].
  induction j as [| j IH]; intros Hj.
  - simpl. reflexivity.
  - replace (S j) with (j + 1) by lia.
    specialize (IH ltac:(lia)).
    destruct (lookup_lt_is_Some_2 xs j ltac:(lia)) as [x Hx].
    pose proof (Hsteps j ltac:(lia)) as Hstep. unfold sma_sum_step_exact in Hstep.
    apply andb_prop in Hstep as [Hadd Hsub].
    rewrite b64_sma_sum_step.
    rewrite (b64_aget_nums _ _ _ Hx) in *. cbn [Binary64.ToNumber] in *.
    assert (Hxq : num_eq (fval x) (Fin (fq x))).
    { rewrite (fval_finite_double x (forallb_lookup _ _ _ _ Hfin Hx)).
      apply num_eq_refl. }
    pose proof (exact2_track _ _ _ _ _ _ nadd_comp Hadd IH Hxq) as Hsum1.
    assert (Hqx : (fq <$> xs) !! j = Some (fq x)).
    { rewrite list_lookup_fmap, Hx. reflexivity. }
    destruct (Nat.leb_spec period j) as [Hpj | Hpj].
    + destruct (lookup_lt_is_Some_2 xs (j - period) ltac:(lia)) as [x' Hx'].
      rewrite (b64_aget_nums _ _ _ Hx') in *. cbn [Binary64.ToNumber] in *.
      assert (Hxq' : num_eq (fval x') (Fin (fq x'))).
      { rewrite (fval_finite_double x' (forallb_lookup _ _ _ _ Hfin Hx')).
        apply num_eq_refl. }
      pose proof (exact2_track _ _ _ _ _ _ nsub_comp Hsub Hsum1 Hxq') as Hsum2.
      eapply num_eq_trans; [exact Hsum2 |]. simpl.
      rewrite (trailing_slide (fq <$> xs) period j (fq x) (fq x')); try assumption.
      * ring.
      * rewrite list_lookup_fmap, Hx'. reflexivity.
    + eapply num_eq_trans; [exact Hsum1 |]. simpl.
      rewrite (trailing_grow (fq <$> xs) period j (fq x)) by assumption.
      reflexivity.
Qed.

(** With exact additions and subtractions a slot is the quotient, rounded
    once, of the sum of the window by the period. *)
Lemma b64_calculateSMA_sums_exact (xs : list PrimFloat.float) (period i : nat) :
  0 < period -> sma_sums_exact xs period = true ->
  i < length xs -> period - 1 <= i ->
  exists s, num_eq (fval s) (Fin (qsum (window (fq <$> xs) period i)))
            /\ Binary64.aget (Binary64.calculateSMA (Binary64.nums xs) period) i
               = Binary64.VNum (PrimFloat.div s (Binary64.of_nat period)).
Proof.
  intros Hp Hex Hi Hpi.
  destruct (b64_calculateSMA_slots (Binary64.nums xs) period) as [_ Hslots].
  rewrite b64_length_nums in Hslots. rewrite (Hslots i Hi).
  nat_test_true (period - 1 <=? i). eexists. split; [| reflexivity].
  rewrite <- trailing_window. apply b64_sma_sum_exact; [assumption .. | lia].
Qed.

(** With every operation exact a slot is the mean of the window. *)
Lemma b64_calculateSMA_exact (xs : list PrimFloat.float) (period i : nat) :
  0 < period -> sma_exact xs period = true ->
  i < length xs -> period - 1 <= i ->
  exists r, Binary64.aget (Binary64.calculateSMA (Binary64.nums xs) period) i
            = Binary64.VNum r
            /\ num_eq (fval r) (Fin (window_mean (fq <$> xs) period i)).
Proof.
  intros Hp Hex Hi Hpi.
  destruct (sma_exact_parts xs period Hex) as [Hsums [Hper Hsteps]].
  destruct (b64_calculateSMA_slots (Binary64.nums xs) period) as [_ Hslots].
  rewrite b64_length_nums in Hslots. rewrite (Hslots i Hi).
  nat_test_true (period - 1 <=? i). eexists. split; [reflexivity |].
  pose proof (Hsteps i Hi) as Hdiv. unfold sma_div_step_exact in Hdiv.
  nat_test_true (period - 1 <=? i) in Hdiv.
  pose proof (b64_sma_sum_exact xs period (i + 1) Hp Hsums ltac:(lia)) as Hsum.
  pose proof (exact2_track _ _ _ _ _ _ ndiv_comp Hdiv Hsum Hper) as H.
  eapply num_eq_trans; [exact H |].
  rewrite ndiv_of_nat by exact Hp. unfold window_mean.
  rewrite trailing_window. apply num_eq_refl.
Qed.

(** ** The two loops of [calculateRSI] on doubles *)









(** ** [calculateRSI] when no operation rounds *)


Section RsiOnDoubles.

Import PrimFloat.










End RsiOnDoubles.

(** ** Sums of doubles that are not negative *)

Lemma shr_1_nonneg (mrs : SpecFloat.shr_record) :
  (0 <= SpecFloat.shr_m mrs)%Z -> (0 <= SpecFloat.shr_m (SpecFloat.shr_1 mrs))%Z.
Proof.
  destruct mrs as [m r s]. cbn [SpecFloat.shr_m]. intros H.
  destruct m as [| p | p]; [| destruct p | lia]; cbn; lia.
Qed.

Lemma iter_pos_invariant {A : Type} (P : A -> Prop) (f : A -> A) (n : positive) :
  (forall x, P x -> P (f x)) -> forall x, P x -> P (SpecFloat.iter_pos f n x).
Proof.
  intros Hf. induction n as [n IH | n IH |]; intros x Hx; cbn.
  - apply IH, IH, Hf, Hx.
  - apply IH, IH, Hx.
  - apply Hf, Hx.
Qed.

Lemma shr_nonneg (mrs : SpecFloat.shr_record) (e n : Z) :
  (0 <= SpecFloat.shr_m mrs)%Z ->
  (0 <= SpecFloat.shr_m (fst (SpecFloat.shr mrs e n)))%Z.
Proof.
  intros H. unfold SpecFloat.shr. destruct n as [| p | p]; cbn [fst]; try exact H.
  apply (iter_pos_invariant (fun r => (0 <= SpecFloat.shr_m r)%Z)); [| exact H].
  apply shr_1_nonneg.
Qed.

Lemma shr_fexp_nonneg (prec emax m e : Z) (l : SpecFloat.location) :
  (0 <= m)%Z ->
  (0 <= SpecFloat.shr_m (fst (SpecFloat.shr_fexp prec emax m e l)))%Z.
Proof.
  intros H. unfold SpecFloat.shr_fexp. apply shr_nonneg.
  destruct l as [| []]; exact H.
Qed.

Lemma round_nearest_even_nonneg (m : Z) (l : SpecFloat.location) :
  (0 <= m)%Z -> (0 <= SpecFloat.round_nearest_even m l)%Z.
Proof.
  intros H. unfold SpecFloat.round_nearest_even.
  destruct l as [| []]; try destruct (Z.even m); lia.
Qed.

Lemma binary_round_aux_sign (prec emax : Z) (sx : bool) (mx ex : Z)
    (lx : SpecFloat.location) :
  (0 <= mx)%Z -> has_sign sx (SpecFloat.binary_round_aux prec emax sx mx ex lx).
Proof.
  intros H. unfold SpecFloat.binary_round_aux.
  pose proof (shr_fexp_nonneg prec emax mx ex lx H) as H1.
  destruct (SpecFloat.shr_fexp prec emax mx ex lx) as [mrs' e']. cbn [fst] in H1.
  pose proof (shr_fexp_nonneg prec emax _ e' SpecFloat.loc_Exact
                (round_nearest_even_nonneg _ (SpecFloat.loc_of_shr_record mrs') H1))
    as H2.
  destruct (SpecFloat.shr_fexp prec emax _ e' SpecFloat.loc_Exact) as [mrs'' e''].
  cbn [fst] in H2.
  destruct (SpecFloat.shr_m mrs'') as [| p | p]; [reflexivity | | lia].
  destruct (Z.leb e'' (emax - prec)); reflexivity.
Qed.

Lemma binary_round_sign (prec emax : Z) (sx : bool) (mx : positive) (ex : Z) :
  has_sign sx (SpecFloat.binary_round prec emax sx mx ex).
Proof.
  unfold SpecFloat.binary_round.
  destruct (SpecFloat.shl_align mx ex _) as [mz ez].
  apply binary_round_aux_sign. lia.
Qed.

Lemma has_sign_nonneg (x : SpecFloat.spec_float) :
  has_sign false x -> nonneg_sf x = true.
Proof. destruct x; cbn; intros H; try rewrite H; try reflexivity; contradiction. Qed.

Lemma SFadd_nonneg (prec emax : Z) (x y : SpecFloat.spec_float) :
  nonneg_sf x = true -> nonneg_sf y = true ->
  nonneg_sf (SpecFloat.SFadd prec emax x y) = true.
Proof.
  destruct x as [sx | sx | | sx mx ex], y as [sy | sy | | sy my ey];
    cbn [nonneg_sf]; intros Hx Hy; try discriminate;
    try (apply negb_true_iff in Hx; subst sx);
    try (apply negb_true_iff in Hy; subst sy);
    try reflexivity.
  - destruct sx, sy; reflexivity.
  - cbn [SpecFloat.SFadd SpecFloat.cond_Zopp].
    apply has_sign_nonneg.
    cbn [Z.add SpecFloat.binary_normalize]. apply binary_round_sign.
Qed.

Section NonnegSums.

Import PrimFloat.

Lemma nonneg_double_sf (x : float) : nonneg_double x = nonneg_sf (FloatOps.Prim2SF x).
Proof. reflexivity. Qed.

Lemma b64_add_nonneg (x y : float) :
  nonneg_double x = true -> nonneg_double y = true ->
  nonneg_double (x + y) = true.
Proof.
  rewrite !nonneg_double_sf, FloatAxioms.add_spec. apply SFadd_nonneg.
Qed.

Lemma b64_win_nonneg (x : float) : ltb 0 x = true -> nonneg_double x = true.
Proof.
  rewrite FloatAxioms.ltb_spec, Prim2SF_zero. unfold nonneg_double, nonneg_sf.
  destruct (FloatOps.Prim2SF x) as [s | s | | s m e]; try destruct s;
    cbn; congruence.
Qed.

Lemma b64_loss_abs_nonneg (x : float) :
  ltb x 0 = true -> nonneg_double (abs x) = true.
Proof.
  rewrite FloatAxioms.ltb_spec, Prim2SF_zero. unfold nonneg_double, nonneg_sf.
  rewrite FloatAxioms.abs_spec.
  destruct (FloatOps.Prim2SF x) as [s | s | | s m e]; try destruct s;
    cbn; congruence.
Qed.

Lemma b64_sum_nonneg (f : Binary64.Trade -> float) (ts : list Binary64.Trade)
    (acc : float) :
  (forall t, In t ts -> nonneg_double (f t) = true) ->
  nonneg_double acc = true ->
  nonneg_double (foldl (fun sum t => (sum + f t)%float) acc ts) = true.
Proof.
  revert acc. induction ts as [| t ts IH]; intros acc Hf Hacc; [exact Hacc |].
  cbn [foldl]. apply IH.
  - intros u Hu. apply Hf. right. exact Hu.
  - apply b64_add_nonneg; [exact Hacc | apply Hf; left; reflexivity].
Qed.

(** The two sums are zero, positive or [Infinity], never [NaN]. *)
Lemma b64_grossProfit_nonneg (ts : list Binary64.Trade) :
  nonneg_double (Binary64.grossProfit ts) = true.
Proof.
  unfold Binary64.grossProfit. apply b64_sum_nonneg; [| reflexivity].
  intros t Ht. apply List.filter_In in Ht as [_ Ht]. apply b64_win_nonneg, Ht.
Qed.

Lemma b64_grossLoss_nonneg (ts : list Binary64.Trade) :
  nonneg_double (Binary64.grossLoss ts) = true.
Proof.
  unfold Binary64.grossLoss. apply b64_sum_nonneg; [| reflexivity].
  intros t Ht. apply List.filter_In in Ht as [_ Ht]. apply b64_loss_abs_nonneg, Ht.
Qed.

Lemma b64_truthy_nonneg (x : float) :
  nonneg_double x = true -> Binary64.truthy x = negb (eqb x 0).
Proof.
  intros H. unfold Binary64.truthy.
  replace (eqb x x) with true; [apply andb_true_r |].
  symmetry. rewrite b64_nan_reflexive. unfold nonneg_double, nonneg_sf, fval in *.
  destruct (FloatOps.Prim2SF x) as [s | s | | s m e]; try destruct s;
    try reflexivity; discriminate.
Qed.

End NonnegSums.

(** ** The metrics on doubles *)

Section MetricsOnDoubles.

Import PrimFloat.

Lemma b64_is_win_value (t : Binary64.Trade) :
  Binary64.is_win t = nlt (Fin 0) (fval (Binary64.pnl t)).
Proof. unfold Binary64.is_win. apply b64_ltb_zero_l. Qed.

Lemma b64_is_loss_value (t : Binary64.Trade) :
  Binary64.is_loss t = nlt (fval (Binary64.pnl t)) (Fin 0).
Proof. unfold Binary64.is_loss. apply b64_ltb_zero_r. Qed.

Lemma pnls_finite_lookup (ts : list Binary64.Trade) (t : Binary64.Trade) :
  pnls_finite ts = true -> In t ts -> fval (Binary64.pnl t) = Fin (fq (Binary64.pnl t)).
Proof.
  unfold pnls_finite. intros H Hin. rewrite forallb_forall in H.
  apply fval_finite_double, H, Hin.
Qed.

Lemma double_pnls_filter (f : Binary64.Trade -> bool) (g : Q -> bool)
    (ts : list Binary64.Trade) :
  (forall t, In t ts -> f t = g (fq (Binary64.pnl t))) ->
  double_pnls (List.filter f ts) = List.filter g (double_pnls ts).
Proof.
  unfold double_pnls. induction ts as [| t ts IH]; intros Hfg; [reflexivity |].
  cbn [List.filter List.map]. rewrite <- (Hfg t (or_introl eq_refl)).
  destruct (f t); cbn [List.map]; rewrite IH; auto; intros u Hu; apply Hfg;
    right; exact Hu.
Qed.

Lemma double_pnls_wins (ts : list Binary64.Trade) :
  pnls_finite ts = true ->
  double_pnls (List.filter Binary64.is_win ts)
  = List.filter (fun p => Qltb 0 p) (double_pnls ts).
Proof.
  intros Hfin. apply double_pnls_filter. intros t Ht.
  rewrite b64_is_win_value, (pnls_finite_lookup ts t Hfin Ht). reflexivity.
Qed.

Lemma double_pnls_losses (ts : list Binary64.Trade) :
  pnls_finite ts = true ->
  double_pnls (List.filter Binary64.is_loss ts)
  = List.filter (fun p => Qltb p 0) (double_pnls ts).
Proof.
  intros Hfin. apply double_pnls_filter. intros t Ht.
  rewrite b64_is_loss_value, (pnls_finite_lookup ts t Hfin Ht). reflexivity.
Qed.

Lemma b64_wins_ref (ts : list Binary64.Trade) :
  pnls_finite ts = true ->
  length (List.filter Binary64.is_win ts) = wins_ref (double_pnls ts).
Proof.
  intros Hfin. unfold wins_ref. rewrite <- (double_pnls_wins ts Hfin).
  unfold double_pnls. rewrite List.length_map. reflexivity.
Qed.

(** A sum of exact additions. *)
Lemma b64_sum_track (f : Binary64.Trade -> float) (h : Q -> Q)
    (ts : list Binary64.Trade) (acc : float) (a : Q) :
  (forall t, In t ts -> num_eq (fval (f t)) (Fin (h (fq (Binary64.pnl t))))) ->
  sum_exact acc (f <$> ts) = true ->
  num_eq (fval acc) (Fin a) ->
  num_eq (fval (foldl (fun sum t => (sum + f t)%float) acc ts))
         (Fin (a + qsum (List.map h (double_pnls ts)))).
Proof.
  revert acc a. induction ts as [| t ts IH]; intros acc a Hf Hex Hacc.
  - cbn. eapply num_eq_trans; [exact Hacc |]. cbn. unfold qsum. cbn. ring.
  - cbn [fmap list_fmap sum_exact] in Hex. apply andb_prop in Hex as [H1 H2].
    cbn [foldl double_pnls List.map].
    pose proof (exact2_track _ _ _ _ _ _ nadd_comp H1 Hacc
                  (Hf t (or_introl eq_refl))) as Hstep.
    cbn [nadd] in Hstep.
    eapply num_eq_trans.
    + apply (IH _ _ (fun u Hu => Hf u (or_intror Hu)) H2 Hstep).
    + cbn [num_eq]. fold (double_pnls ts). rewrite qsum_cons. ring.
Qed.

Lemma filter_In_l {A} (f : A -> bool) (l : list A) (x : A) :
  In x (List.filter f l) -> In x l.
Proof. intros H. apply List.filter_In in H. tauto. Qed.

Lemma b64_grossProfit_exact (ts : list Binary64.Trade) :
  pnls_finite ts = true ->
  sum_exact 0%float (Binary64.pnl <$> List.filter Binary64.is_win ts) = true ->
  num_eq (fval (Binary64.grossProfit ts)) (Fin (grossProfit_ref (double_pnls ts))).
Proof.
  intros Hfin Hex. unfold Binary64.grossProfit.
  eapply num_eq_trans.
  - apply (b64_sum_track Binary64.pnl (fun q => q) _ _ 0%Q); [| exact Hex | reflexivity].
    intros t Ht. rewrite (pnls_finite_lookup ts t Hfin (filter_In_l _ _ _ Ht)).
    apply num_eq_refl.
  - rewrite List.map_id, (double_pnls_wins ts Hfin). unfold grossProfit_ref.
    cbn [num_eq]. ring.
Qed.

Lemma b64_grossLoss_exact (ts : list Binary64.Trade) :
  pnls_finite ts = true ->
  sum_exact 0%float
    ((fun t => abs (Binary64.pnl t)) <$> List.filter Binary64.is_loss ts) = true ->
  num_eq (fval (Binary64.grossLoss ts)) (Fin (grossLoss_ref (double_pnls ts))).
Proof.
  intros Hfin Hex. unfold Binary64.grossLoss.
  eapply num_eq_trans.
  - apply (b64_sum_track (fun t => abs (Binary64.pnl t)) Qabs _ _ 0%Q);
      [| exact Hex | reflexivity].
    intros t Ht. eapply num_eq_trans; [apply b64_abs |].
    rewrite (pnls_finite_lookup ts t Hfin (filter_In_l _ _ _ Ht)).
    apply num_eq_refl.
  - rewrite (double_pnls_losses ts Hfin). unfold grossLoss_ref.
    cbn [num_eq]. ring.
Qed.

(** The three results of the aggregator, as the code computes them. *)
Lemma b64_metrics_code (ts : list Binary64.Trade) :
  Binary64.res_trades (Binary64.metrics ts) = ts
  /\ Binary64.totalTrades (Binary64.metrics ts) = length ts
  /\ (length ts = 0 -> Binary64.winRate (Binary64.metrics ts) = 0%float)
  /\ (0 < length ts ->
      Binary64.winRate (Binary64.metrics ts)
      = (Binary64.of_nat (length (List.filter Binary64.is_win ts))
         / Binary64.of_nat (length ts) * 100)%float)
  /\ (eqb (Binary64.grossLoss ts) 0 = true ->
      Binary64.profitFactor (Binary64.metrics ts) = infinity)
  /\ (eqb (Binary64.grossLoss ts) 0 = false ->
      Binary64.profitFactor (Binary64.metrics ts)
      = (Binary64.grossProfit ts / Binary64.grossLoss ts)%float).
Proof.
  unfold Binary64.metrics.
  cbn [Binary64.res_trades Binary64.totalTrades Binary64.winRate
       Binary64.profitFactor].
  rewrite (b64_truthy_nonneg _ (b64_grossLoss_nonneg ts)).
  split; [reflexivity |]. split; [reflexivity |]. split; [| split; [| split]].
  - intros ->. reflexivity.
  - intros H. nat_test_false (length ts =? 0). reflexivity.
  - intros ->. reflexivity.
  - intros ->. reflexivity.
Qed.

Lemma b64_winRate_exact (ts : list Binary64.Trade) :
  pnls_finite ts = true -> winRate_exact ts = true -> 0 < length ts ->
  num_eq (fval (Binary64.winRate (Binary64.metrics ts)))
         (Fin (100 * inject_Z (Z.of_nat (wins_ref (double_pnls ts)))
               / inject_Z (Z.of_nat (length ts)))).
Proof.
  intros Hfin Hex Hpos.
  destruct (b64_metrics_code ts) as [_ [_ [_ [Hw _]]]]. rewrite (Hw Hpos).
  unfold winRate_exact in Hex.
  apply andb_prop in Hex as [Hex H4]. apply andb_prop in Hex as [Hex H3].
  apply andb_prop in Hex as [H1 H2].
  apply num_eqb_true in H1, H2.
  pose proof (exact2_track _ _ _ _ _ _ ndiv_comp H3 H1 H2) as T1.
  pose proof (exact2_track _ _ _ _ _ _ nmul_comp H4 T1 fval_100) as T2.
  eapply num_eq_trans; [exact T2 |].
  rewrite (b64_wins_ref ts Hfin). unfold of_nat. cbn [ndiv].
  rewrite (Qeq_bool_of_nat_pos (length ts) Hpos). cbn [nmul num_eq]. pose proof (Qpos_of_nat (length ts) Hpos).
  field. lra.
Qed.

Lemma b64_profitFactor_exact (ts : list Binary64.Trade) :
  pnls_finite ts = true -> profitFactor_exact ts = true ->
  (Binary64.profitFactor (Binary64.metrics ts) = infinity
   <-> (grossLoss_ref (double_pnls ts) == 0)%Q)
  /\ (~ (grossLoss_ref (double_pnls ts) == 0)%Q ->
      num_eq (fval (Binary64.profitFactor (Binary64.metrics ts)))
             (Fin (grossProfit_ref (double_pnls ts)
                   / grossLoss_ref (double_pnls ts)))).
Proof.
  intros Hfin Hex. unfold profitFactor_exact in Hex.
  apply andb_prop in Hex as [Hex H3]. apply andb_prop in Hex as [H1 H2].
  pose proof (b64_grossProfit_exact ts Hfin H1) as Hgp.
  pose proof (b64_grossLoss_exact ts Hfin H2) as Hgl.
  unfold Binary64.metrics. cbn [Binary64.profitFactor].
  rewrite b64_truthy in *.
  destruct (num_eq_Fin _ _ Hgl) as [gl [Egl Hq]]. rewrite Egl in *.
  cbn [ntruthy] in *.
  destruct (Qeq_bool gl 0) eqn:E; cbn [negb] in *.
  - apply Qeq_bool_eq in E.
    assert (Hz : (grossLoss_ref (double_pnls ts) == 0)%Q) by (rewrite <- Hq; exact E).
    split.
    + split; [intros _; exact Hz | reflexivity].
    + intros Hne. contradiction.
  - apply Qeq_bool_neq in E.
    assert (Hnz : ~ (grossLoss_ref (double_pnls ts) == 0)%Q).
    { intros H. apply E. rewrite Hq. exact H. }
    assert (Hpf : num_eq (fval (Binary64.grossProfit ts / Binary64.grossLoss ts)%float)
                         (Fin (grossProfit_ref (double_pnls ts) / gl))).
    { pose proof (exact2_track _ _ _ _ _ _ ndiv_comp H3 Hgp
                    (num_eq_refl (fval (Binary64.grossLoss ts)))) as T.
      rewrite Egl in T. cbn [ndiv] in T.
      rewrite (Qeq_bool_false gl 0 E) in T. exact T. }
    split.
    + split; [| intros H; contradiction].
      intros Hinf. rewrite Hinf in Hpf. cbn in Hpf. contradiction.
    + intros _. eapply num_eq_trans; [exact Hpf |]. cbn [num_eq].
      rewrite Hq. reflexivity.
Qed.

End MetricsOnDoubles.

(** ** Rounding to nearest even, after [SpecFloat] *)

Section RoundingToNearest.

Local Open Scope Z_scope.

(** ** Binary digits *)







(** ** Shifting right *)








Section Rounding.

Variables prec emax : Z.








End Rounding.

Section Bounds.

Variables prec emax : Z.
Hypothesis prec_pos : 0 < prec.



End Bounds.

(** ** Aligning and rounding *)




Section RoundedOperations.

Variables prec emax : Z.
Hypothesis prec_pos : 0 < prec.




End RoundedOperations.

(** ** Bounds on sums, quotients and differences *)

Section BoundedOperations.

Variables prec emax : Z.
Hypothesis prec_pos : 0 < prec.







End BoundedOperations.

(** ** Numbers that are not negative, or [NaN] *)



Section NonNegative.

Variables prec emax : Z.






End NonNegative.

(** ** The range of the value [calculateRSI] stores *)

Section RsiRange.

Import PrimFloat.

Local Abbreviation prec := FloatOps.prec.
Local Abbreviation emax := FloatOps.emax.













(** *** From the representation to the value *)







End RsiRange.

(** ** The averages of [calculateRSI] are never negative *)

Section RsiAverages.

Import PrimFloat.

Local Abbreviation prec := FloatOps.prec.
Local Abbreviation emax := FloatOps.emax.







End RsiAverages.

End RoundingToNearest.

(** ** Integers below [2^53] *)

Section SafeIntegers.

Local Open Scope Z_scope.

Local Abbreviation prec := FloatOps.prec.
Local Abbreviation emax := FloatOps.emax.



End SafeIntegers.

(** ** The computed values on doubles *)

Section ValuesOnDoubles.

Import PrimFloat.

(** C4 -- [calculateSMA] on doubles, for any sequence of doubles and any
    positive period.  The result has the length of the input and holds
    [null] at every index [i < period - 1].  At every index
    [i >= period - 1] it holds the running sum divided by the period, where
    the running sum starts at 0 and each iteration adds the incoming value
    and, from index [period] on, subtracts the value leaving the window,
    each operation rounding as a double does.  In a run where no addition
    and no subtraction rounds or overflows ([sma_sums_exact]) the running
    sum is the sum of [values[i - period + 1 .. i]], so that the slot is
    that sum divided by the period, rounded once; where the divisions are
    exact too ([sma_exact]) the slot is the arithmetic mean of the window as
    the reference [window_mean] recomputes it from scratch.  Otherwise the
    slot and the mean may differ. *)
Theorem calculateSMA_running_sum_on_doubles (xs : list float) (period : nat) :
  0 < period ->
  let out := Binary64.calculateSMA (Binary64.nums xs) period in
  let sum := fun j =>
    Binary64.sma_sum (Binary64.sma_loop (Binary64.nums xs) period j) in
  length out = length xs
  /\ (forall i, i < length xs -> i < period - 1 ->
        Binary64.aget out i = Binary64.VNull)
  /\ (forall i, i < length xs -> period - 1 <= i ->
        Binary64.aget out i
        = Binary64.VNum (sum (i + 1)%nat / Binary64.of_nat period)%float)
  /\ sum 0 = 0%float
  /\ (forall j x, xs !! j = Some x -> j < period ->
        sum (j + 1) = (sum j + x)%float)
  /\ (forall j x y, xs !! j = Some x -> xs !! (j - period) = Some y ->
        period <= j -> sum (j + 1) = (sum j + x - y)%float)
  /\ (sma_sums_exact xs period = true ->
      forall i, i < length xs -> period - 1 <= i ->
        exists s, num_eq (fval s) (Fin (qsum (window (fq <$> xs) period i)))
                  /\ Binary64.aget out i
                     = Binary64.VNum (s / Binary64.of_nat period)%float)
  /\ (sma_exact xs period = true ->
      forall i, i < length xs -> period - 1 <= i ->
        exists r, Binary64.aget out i = Binary64.VNum r
                  /\ num_eq (fval r) (Fin (window_mean (fq <$> xs) period i))).
Proof.
  intros Hp out sum. subst out sum. cbn beta.
  destruct (b64_calculateSMA_slots (Binary64.nums xs) period) as [Hlen Hslots].
  rewrite b64_length_nums in Hlen, Hslots.
  split; [exact Hlen |]. split; [| split; [| split; [| split; [| split; [| split]]]]].
  - intros i Hi Hip. rewrite (Hslots i Hi).
    nat_test_false (period - 1 <=? i). reflexivity.
  - intros i Hi Hip. rewrite (Hslots i Hi).
    nat_test_true (period - 1 <=? i). reflexivity.
  - reflexivity.
  - intros j x Hx Hj. rewrite b64_sma_sum_step.
    nat_test_false (period <=? j).
    rewrite (b64_aget_nums _ _ _ Hx). reflexivity.
  - intros j x y Hx Hy Hj. rewrite b64_sma_sum_step.
    nat_test_true (period <=? j).
    rewrite (b64_aget_nums _ _ _ Hx), (b64_aget_nums _ _ _ Hy). reflexivity.
  - intros Hex i Hi Hip. apply b64_calculateSMA_sums_exact; assumption.
  - intros Hex i Hi Hip. apply b64_calculateSMA_exact; assumption.
Qed.

(** C4, counterexample -- On doubles the running sum loses the mean of the
    window: on [[1e17, 1, 1, 1]] with period 2 the slot at index 3 is 0,
    while the mean of [values[2 .. 3]] is 1, both recomputed from scratch on
    doubles and as a rational. *)
Lemma calculateSMA_running_sum_loses_the_mean :
  0 < 2 /\ 2 - 1 <= 3 < length cancelling_series
  /\ Binary64.aget (Binary64.calculateSMA (Binary64.nums cancelling_series) 2) 3
     = Binary64.VNum 0%float
  /\ window_mean_double cancelling_series 2 3 = 1%float
  /\ (window_mean (fq <$> cancelling_series) 2 3 == 1)%Q
  /\ ~ (exists r,
          Binary64.aget
            (Binary64.calculateSMA (Binary64.nums cancelling_series) 2) 3
          = Binary64.VNum r
          /\ num_eq (fval r) (Fin (window_mean (fq <$> cancelling_series) 2 3))).
Proof.
  assert (Hslot : Binary64.aget
                    (Binary64.calculateSMA (Binary64.nums cancelling_series) 2) 3
                  = Binary64.VNum 0%float) by (vm_compute; reflexivity).
  split; [lia |]. split; [simpl; lia |]. split; [exact Hslot |].
  split; [vm_compute; reflexivity |]. split; [vm_compute; reflexivity |].
  intros [r [Hr Hmean]]. rewrite Hslot in Hr. injection Hr as <-.
  vm_compute in Hmean. discriminate.
Qed.

Lemma calculateSMA_running_sum_on_doubles_witness :
  0 < 2 /\ sma_exact exact_sma_series 2 = true
  /\ exists r,
       Binary64.aget (Binary64.calculateSMA (Binary64.nums exact_sma_series) 2) 3
       = Binary64.VNum r
       /\ num_eq (fval r) (Fin (window_mean (fq <$> exact_sma_series) 2 3)).
Proof.
  assert (Hp : 0 < 2) by lia.
  assert (Hex : sma_exact exact_sma_series 2 = true) by (vm_compute; reflexivity).
  destruct (calculateSMA_running_sum_on_doubles exact_sma_series 2 Hp)
    as [_ [_ [_ [_ [_ [_ [_ H]]]]]]].
  split; [exact Hp |]. split; [exact Hex |].
  apply (H Hex 3); simpl; lia.
Defined.

(** Exact sums and a division that rounds: the slot is 7 / 3 rounded
    once. *)
Example calculateSMA_mean_rounded_once :
  sma_sums_exact rounded_mean_series 3 = true
  /\ sma_exact rounded_mean_series 3 = false
  /\ Binary64.aget (Binary64.calculateSMA (Binary64.nums rounded_mean_series) 3) 2
     = Binary64.VNum (7 / 3)%float.
Proof. repeat split; vm_compute; reflexivity. Qed.




(** C8 -- The metrics of [runBacktest] on doubles, for the trades of any
    run.  [totalTrades] is the count of the trades; [winRate] is 0 when
    there is none and otherwise the double
    [(count(pnl > 0) / totalTrades) * 100], the division first;
    [profitFactor] is the infinite sentinel when [grossLoss] is 0 and the
    double [grossProfit / grossLoss] otherwise, whatever [grossProfit] is
    ([grossLoss] is never [NaN]).  When the profits are finite and the
    division and the multiplication of [winRate] are exact, [winRate] is
    [100 * count(pnl > 0) / totalTrades]; when the profits are finite and
    the sums and the division of [profitFactor] are exact, [profitFactor]
    is the sentinel exactly when the sum of [|pnl|] over the losing trades
    is 0, and [grossProfit / grossLoss] otherwise. *)
Theorem runBacktest_metrics_on_doubles (data : list Binary64.PricePoint)
    (params : Binary64.Params) :
  let r := Binary64.runBacktest data params in
  let ts := Binary64.res_trades r in
  let wins := length (List.filter Binary64.is_win ts) in
  ts = Binary64.trades (Binary64.simulate data params)
  /\ Binary64.totalTrades r = length ts
  /\ (Binary64.totalTrades r = 0 -> Binary64.winRate r = 0%float)
  /\ (0 < Binary64.totalTrades r ->
      Binary64.winRate r
      = (Binary64.of_nat wins / Binary64.of_nat (Binary64.totalTrades r) * 100)%float)
  /\ (eqb (Binary64.grossLoss ts) 0 = true -> Binary64.profitFactor r = infinity)
  /\ (eqb (Binary64.grossLoss ts) 0 = false ->
      Binary64.profitFactor r
      = (Binary64.grossProfit ts / Binary64.grossLoss ts)%float)
  /\ (pnls_finite ts = true -> winRate_exact ts = true ->
      0 < Binary64.totalTrades r ->
      num_eq (fval (Binary64.winRate r))
             (Fin (100 * inject_Z (Z.of_nat (wins_ref (double_pnls ts)))
                   / inject_Z (Z.of_nat (Binary64.totalTrades r)))))
  /\ (pnls_finite ts = true -> profitFactor_exact ts = true ->
      (Binary64.profitFactor r = infinity
       <-> (grossLoss_ref (double_pnls ts) == 0)%Q)
      /\ (~ (grossLoss_ref (double_pnls ts) == 0)%Q ->
          num_eq (fval (Binary64.profitFactor r))
                 (Fin (grossProfit_ref (double_pnls ts)
                       / grossLoss_ref (double_pnls ts))))).
Proof.
  intros r ts wins. subst r ts wins. cbn beta. unfold Binary64.runBacktest.
  set (ts := Binary64.trades (Binary64.simulate data params)).
  destruct (b64_metrics_code ts) as [Htr [Htot [Hw0 [Hw [Hinf Hpf]]]]].
  rewrite Htr, Htot.
  split; [reflexivity |]. split; [reflexivity |].
  split; [exact Hw0 |]. split; [exact Hw |].
  split; [exact Hinf |]. split; [exact Hpf |]. split.
  - apply b64_winRate_exact.
  - apply b64_profitFactor_exact.
Qed.

(** C8, counterexample -- On doubles [winRate] can differ from
    [100 * wins / totalTrades], and [profitFactor] can be the infinite
    sentinel with a non-zero gross loss.  On the closes
    [[6, 1, 9, 6, 8, 6, 8, 9]] one trade in three wins and [winRate] is
    [(1 / 3) * 100], which is not the double [100 * 1 / 3].  On
    [tiny_loss_series] the gross loss is about 2.56e-159, not 0, and the
    quotient overflows: [profitFactor] is [Infinity]. *)
Lemma runBacktest_metrics_round_and_overflow :
  (Binary64.totalTrades (Binary64.runBacktest one_in_three_series one_in_three_params)
   = 3
   /\ length (List.filter Binary64.is_win
                (Binary64.res_trades
                   (Binary64.runBacktest one_in_three_series one_in_three_params)))
      = 1
   /\ eqb (Binary64.winRate
             (Binary64.runBacktest one_in_three_series one_in_three_params))
          (100 * Binary64.of_nat 1 / Binary64.of_nat 3)%float
      = false
   /\ ~ num_eq
          (fval (Binary64.winRate
                   (Binary64.runBacktest one_in_three_series one_in_three_params)))
          (Fin (100 * inject_Z (Z.of_nat 1) / inject_Z (Z.of_nat 3))))
  /\ (Binary64.profitFactor (Binary64.runBacktest tiny_loss_series short_params)
      = infinity
      /\ eqb (Binary64.grossLoss
                (Binary64.res_trades
                   (Binary64.runBacktest tiny_loss_series short_params)))
             0
         = false
      /\ ~ (grossLoss_ref
              (double_pnls
                 (Binary64.res_trades
                    (Binary64.runBacktest tiny_loss_series short_params)))
            == 0)%Q).
Proof.
  split.
  - split; [vm_compute; reflexivity |]. split; [vm_compute; reflexivity |].
    split; [vm_compute; reflexivity |]. vm_compute. discriminate.
  - split; [vm_compute; reflexivity |]. split; [vm_compute; reflexivity |].
    vm_compute. discriminate.
Qed.

Lemma runBacktest_metrics_on_doubles_witness :
  pnls_finite
    (Binary64.res_trades (Binary64.runBacktest loss_then_win_series short_params))
  = true
  /\ winRate_exact
       (Binary64.res_trades (Binary64.runBacktest loss_then_win_series short_params))
     = true
  /\ profitFactor_exact
       (Binary64.res_trades (Binary64.runBacktest loss_then_win_series short_params))
     = true
  /\ 0 < Binary64.totalTrades (Binary64.runBacktest loss_then_win_series short_params)
  /\ num_eq
       (fval (Binary64.winRate (Binary64.runBacktest loss_then_win_series short_params)))
       (Fin (100
             * inject_Z
                 (Z.of_nat
                    (wins_ref
                       (double_pnls
                          (Binary64.res_trades
                             (Binary64.runBacktest loss_then_win_series
                                                   short_params)))))
             / inject_Z
                 (Z.of_nat
                    (Binary64.totalTrades
                       (Binary64.runBacktest loss_then_win_series short_params)))))
  /\ (Binary64.profitFactor (Binary64.runBacktest loss_then_win_series short_params)
      = infinity
      <-> (grossLoss_ref
             (double_pnls
                (Binary64.res_trades
                   (Binary64.runBacktest loss_then_win_series short_params)))
           == 0)%Q).
Proof.
  destruct (runBacktest_metrics_on_doubles loss_then_win_series short_params)
    as [_ [_ [_ [_ [_ [_ [Hw Hpf]]]]]]].
  assert (H1 : pnls_finite
                 (Binary64.res_trades
                    (Binary64.runBacktest loss_then_win_series short_params))
               = true) by (vm_compute; reflexivity).
  assert (H2 : winRate_exact
                 (Binary64.res_trades
                    (Binary64.runBacktest loss_then_win_series short_params))
               = true) by (vm_compute; reflexivity).
  assert (H3 : profitFactor_exact
                 (Binary64.res_trades
                    (Binary64.runBacktest loss_then_win_series short_params))
               = true) by (vm_compute; reflexivity).
  assert (H4 : 0 < Binary64.totalTrades
                     (Binary64.runBacktest loss_then_win_series short_params))
    by (vm_compute; lia).
  split; [exact H1 |]. split; [exact H2 |]. split; [exact H3 |].
  split; [exact H4 |]. split; [exact (Hw H1 H2 H4) |].
  exact (proj1 (Hpf H1 H3)).
Defined.

(** ** The concrete runs of the exact embedding, on doubles *)

(** The entry during the SMA warm-up: the run on 10, 9, 11, 8, 8 with
    [maPeriod = 5] enters at the row dated 2, where the SMA is [null]. *)
Example entry_during_sma_warmup_on_doubles :
  Binary64.aget
    (Binary64.sma (Binary64.indicators dip_and_recover_doubles
                                       long_ma_params_doubles)) 2
  = Binary64.VNull
  /\ Binary64.buySignal
       (Binary64.indicators dip_and_recover_doubles long_ma_params_doubles)
       (Binary64.rsiOverbought long_ma_params_doubles) 2
     = true
  /\ Binary64.entryDate
       <$> Binary64.trades
             (Binary64.simulate dip_and_recover_doubles long_ma_params_doubles)
     = [Some 2%Z]
  /\ Binary64.exitDate
       <$> Binary64.trades
             (Binary64.simulate dip_and_recover_doubles long_ma_params_doubles)
     = [Some 3%Z].
Proof. repeat split; vm_compute; reflexivity. Qed.

(** [calculateRSI] on 10, 11, 12 with the period 14: 15 slots, the last one
    a computed [NaN]. *)
Example calculateRSI_short_series_on_doubles :
  Binary64.calculateRSI (Binary64.nums [10; 11; 12]%float) 14
  = [Binary64.VNull; Binary64.VNull; Binary64.VNull]
    ++ replicate 11 Binary64.VUndefined ++ [Binary64.VNum nan]
  /\ Binary64.calculateSMA (Binary64.nums [10; 11; 12]%float) 14
     = [Binary64.VNull; Binary64.VNull; Binary64.VNull]
  /\ Binary64.calculateEMA (Binary64.nums [10; 11; 12]%float) 14
     = [Binary64.VNull; Binary64.VNull; Binary64.VNull].
Proof. repeat split; vm_compute; reflexivity. Qed.

(** The crossovers against a [null] signal line: with the signal period 5
    the run on 10, 9, 11, 8, 8 enters at the row dated 2 and exits at the
    row dated 3, before the last row, the signal line being [null]
    there. *)
Example null_signal_crossovers_on_doubles :
  Binary64.aget
    (Binary64.signalLine (Binary64.indicators dip_and_recover_doubles
                                              long_signal_params_doubles)) 2
  = Binary64.VNull
  /\ Binary64.aget
       (Binary64.signalLine (Binary64.indicators dip_and_recover_doubles
                                                 long_signal_params_doubles)) 3
     = Binary64.VNull
  /\ Binary64.sellSignal
       (Binary64.indicators dip_and_recover_doubles long_signal_params_doubles) 3
     = true
  /\ Binary64.entryDate
       <$> Binary64.trades
             (Binary64.simulate dip_and_recover_doubles
                                long_signal_params_doubles)
     = [Some 2%Z]
  /\ Binary64.exitDate
       <$> Binary64.trades
             (Binary64.simulate dip_and_recover_doubles
                                long_signal_params_doubles)
     = [Some 3%Z].
Proof. repeat split; vm_compute; reflexivity. Qed.

End ValuesOnDoubles.
